(** * distutils644: normalisation of archive metadata

    A shallow embedding of [distutils644.py] (version 0.4): the permission
    normaliser, the stat wrapper, the sorted directory primitives, the
    [monkeypatch] scope, the zip fix-up and the format table rewritten by
    [install].

    Python integers are unbounded, so a mode is a [Z] and the operators
    [&], [|], [~], [<<], [>>] are [Z.land], [Z.lor], [Z.lnot], [Z.shiftl],
    [Z.shiftr] (two's complement on both sides). *)

From Stdlib Require Import ZArith Lia Ascii.
From stdpp Require Import base tactics option list sorting strings gmap.

Local Open Scope Z_scope.

(** ** Python results

    A call either returns a value or raises; the exceptions this module can
    meet are the ones below. *)

Module Py.

Inductive exn : Type :=
| AttributeError
| IndexError
| TypeError
| ImportError
| OSError (errno : Z).

Inductive result (A : Type) : Type :=
| Ok (a : A)
| Raise (e : exn).

Arguments Ok {A} a.
Arguments Raise {A} e.

(** Sequencing: an exception skips the rest. *)
Global Instance result_ret : MRet result := fun _ a => Ok a.
Global Instance result_bind : MBind result := fun _ _ k r =>
  match r with
  | Ok a => k a
  | Raise e => Raise e
  end.

Definition raised {A} (r : result A) : bool :=
  match r with
  | Ok _ => false
  | Raise _ => true
  end.

End Py.

Import Py.


(** ** Permission bits *)

Module Mode.

(** Octal literals of the source, written in decimal. *)
Definition o77 : Z := 63.
Definition o100 : Z := 64.
Definition o111 : Z := 73.
Definition o644 : Z := 420.
Definition o755 : Z := 493.
Definition o777 : Z := 511.
Definition o100644 : Z := 33188.
Definition o100755 : Z := 33261.
Definition o4755 : Z := 2541.
Definition o100700 : Z := 33216.
Definition o7000 : Z := 3584.
Definition o7777 : Z := 4095.

(** [if x:] on an integer. *)
Definition truthy (x : Z) : bool := negb (x =? 0).

(** [normalize_mode], lines 79-84. *)
Definition normalize_mode (mode : Z) : Z :=
  let mode := Z.land mode (Z.lnot o77) in
  let mode := Z.lor mode o644 in
  if truthy (Z.land mode o100) then Z.lor mode o111 else mode.

(** Bit positions of the three execute bits. *)
Definition owner_x : Z := 6.
Definition group_x : Z := 3.
Definition other_x : Z := 0.

End Mode.

Import Mode.


(** ** The stat wrapper *)

Module Stat.

(** Indices of module [stat]. *)
Definition ST_MODE : Z := 0.
Definition ST_INO : Z := 1.
Definition ST_DEV : Z := 2.
Definition ST_NLINK : Z := 3.
Definition ST_UID : Z := 4.
Definition ST_GID : Z := 5.
Definition ST_SIZE : Z := 6.
Definition ST_ATIME : Z := 7.
Definition ST_MTIME : Z := 8.
Definition ST_CTIME : Z := 9.

(** What [os.stat] returns: a tuple that also answers to attribute names.
    The two views are kept apart, as the wrapper reads [st_mode] by name
    and everything else by whichever way the caller asks. *)
Inductive atom : Type :=
| Int (n : Z)
| Obj (id : positive).

Record stat_result : Type := {
  items : list atom;
  attributes : gmap string atom
}.

(** Values an access on the wrapper can produce: what the wrapped record
    holds (an integer, or some other object such as a float time stamp,
    known by identity), or the wrapped record itself. *)
Inductive value : Type :=
| Atom (a : atom)
| Wrapped (st : stat_result).

Definition zero : value := Atom (Int 0).

(** [getattr(original, attr)]. *)
Definition getattr (st : stat_result) (attr : string) : result value :=
  match attributes st !! attr with
  | Some a => Ok (Atom a)
  | None => Raise AttributeError
  end.

(** [original[n]], with Python's negative indices. *)
Definition getitem (st : stat_result) (n : Z) : result value :=
  let len := Z.of_nat (length (items st)) in
  let i := if n <? 0 then n + len else n in
  if (0 <=? i) && (i <? len) then
    match items st !! Z.to_nat i with
    | Some a => Ok (Atom a)
    | None => Raise IndexError
    end
  else Raise IndexError.

(** [class StatResult644], lines 86-111: one slot, set by [__init__]. *)
Record StatResult644 : Type := { _original : stat_result }.

(** Property [st_mode], lines 91-93. *)
Definition st_mode (self : StatResult644) : result value :=
  m ← getattr (_original self) "st_mode";
  match m with
  | Atom (Int mode) => Ok (Atom (Int (normalize_mode mode)))
  | _ => Raise TypeError
  end.

(** Properties [st_uid] and [st_gid], lines 95-101. *)
Definition st_uid (self : StatResult644) : result value := Ok zero.
Definition st_gid (self : StatResult644) : result value := Ok zero.

(** [__getattr__], lines 103-104: the hook Python calls for a name that
    ordinary lookup did not find. *)
Definition __getattr__ (self : StatResult644) (attr : string) : result value :=
  getattr (_original self) attr.

(** [__getitem__], lines 106-111. *)
Definition __getitem__ (self : StatResult644) (n : Z) : result value :=
  if n =? ST_MODE then st_mode self
  else if (n =? ST_UID) || (n =? ST_GID) then Ok zero
  else getitem (_original self) n.

Section Lookup.

(** Names that ordinary lookup finds on the class besides the three
    properties: the methods of the class body and what [object]
    provides ([__class__], [__doc__], ...). They depend on the Python
    version and are taken as given. *)
Variable class_namespace : gmap string value.

(** [self.attr]: properties first, then the instance slot, then the
    class, and [__getattr__] last. *)
Definition attribute (self : StatResult644) (attr : string) : result value :=
  if decide (attr = "st_mode") then st_mode self
  else if decide (attr = "st_uid") then st_uid self
  else if decide (attr = "st_gid") then st_gid self
  else if decide (attr = "_original") then Ok (Wrapped (_original self))
  else match class_namespace !! attr with
       | Some v => Ok v
       | None => __getattr__ self attr
       end.

End Lookup.

Section Primitives.

(** [os.lstat] and [os.stat] as found at import, lines 113 and 118. *)
Variables _orig_os_lstat _orig_os_stat : string -> result stat_result.

(** [os_lstat], lines 114-116. *)
Definition os_lstat (path : string) : result StatResult644 :=
  st ← _orig_os_lstat path; Ok {| _original := st |}.

(** [os_stat], lines 119-121. *)
Definition os_stat (path : string) : result StatResult644 :=
  st ← _orig_os_stat path; Ok {| _original := st |}.

End Primitives.

End Stat.

(** ** Sorted directory primitives *)

Module Traversal.

(** [sorted(names)]: Python's sort is a stable merge sort; on strings it
    compares code points, lexicographically. *)
Definition sorted (names : list string) : list string :=
  merge_sort String.le names.

Section Listdir.

(** [os.listdir] as found at import, line 68: the names of a directory
    in whatever order the file system keeps them. *)
Variable _orig_os_listdir : string -> result (list string).

(** [os_listdir], lines 69-70. *)
Definition os_listdir (path : string) : result (list string) :=
  names ← _orig_os_listdir path; Ok (sorted names).

End Listdir.

(** A generator of [(dirpath, dirnames, filenames)] triples. The two
    lists it yields are shared with the consumer: when the generator is
    resumed it reads them back as the consumer left them, so [resume]
    takes their contents at that moment. *)
Inductive generator : Type :=
| Stop
| Yield (dirpath : string) (dirnames filenames : list string)
        (resume : list string -> list string -> generator).

Definition triple : Type := string * list string * list string.

(** [os_walk], lines 73-77: each triple of the underlying walk has its two
    lists sorted in place and is passed on; the lists stay shared, so on
    resumption the underlying walk sees what the outer consumer left. *)
Fixpoint os_walk (underlying : generator) : generator :=
  match underlying with
  | Stop => Stop
  | Yield dirpath dirnames filenames resume =>
      Yield dirpath (sorted dirnames) (sorted filenames)
            (fun dirnames' filenames' => os_walk (resume dirnames' filenames'))
  end.

(** A [for] loop that reads each triple and touches nothing, as the zip
    builder of distutils does. *)
Fixpoint consume (g : generator) : list triple :=
  match g with
  | Stop => []
  | Yield dirpath dirnames filenames resume =>
      (dirpath, dirnames, filenames) :: consume (resume dirnames filenames)
  end.

(** *** The file system under the walk *)

(** A directory keeps its entries in some order of its own. A symbolic
    link to a directory counts as a directory when a listing is split. *)
Inductive node : Type :=
| File
| DirLink
| Dir (entries : list (string * node)).

Definition is_dir (n : node) : bool :=
  match n with
  | File => false
  | DirLink => true
  | Dir _ => true
  end.

Definition subdirectories (entries : list (string * node)) : list string :=
  (filter (fun e => is_dir e.2) entries).*1.

Definition plain_files (entries : list (string * node)) : list string :=
  (filter (fun e => negb (is_dir e.2)) entries).*1.

(** [os.path.join(top, name)] on POSIX. *)
Definition starts_with_sep (s : string) : bool :=
  match s with
  | String c _ => bool_decide (c = "/"%char)
  | EmptyString => false
  end.

Fixpoint ends_with_sep (s : string) : bool :=
  match s with
  | EmptyString => false
  | String c EmptyString => bool_decide (c = "/"%char)
  | String _ rest => ends_with_sep rest
  end.

Definition join (top name : string) : string :=
  if starts_with_sep name then name
  else if bool_decide (top = "") || ends_with_sep top then top +:+ name
  else top +:+ "/" +:+ name.

(** First entry of that name. *)
Fixpoint find {A} (name : string) (entries : list (string * A)) : option A :=
  match entries with
  | [] => None
  | (n, a) :: rest => if decide (n = name) then Some a else find name rest
  end.

(** What is left of a walk is passed along as [after]. *)
Definition walker : Type := string -> generator -> generator.

(** Descend into each of [names] in turn. A name is looked up among the
    entries of the directory at hand, which is what [os.walk] reaches by
    joining it onto [top] as long as the name is one of those the listing
    gave or names nothing at all: a file or a missing name makes the
    listing fail, which [os.walk] ignores. Names that lead elsewhere (with
    a separator in them, or ["."], or [".."]) are outside this model. *)
Definition descend (children : list (string * walker)) (top : string)
    (names : list string) (after : generator) : generator :=
  foldr (fun name rest =>
           match find name children with
           | Some walk_child => walk_child (join top name) rest
           | None => rest
           end) after names.

(** [os.walk(top, topdown)] of the standard library, over a [node].
    Top-down, the directory is yielded before its subdirectories and the
    descent follows [dirnames] as the consumer left it; bottom-up, the
    descent follows the order on disk and the directory comes last. Links
    met as entries are not followed; a link has no content here, so a walk
    that starts at a link is outside this model. *)
Fixpoint _orig_os_walk (topdown : bool) (n : node) : walker :=
  match n with
  | File => fun _ after => after
  | DirLink => fun _ after => after
  | Dir entries =>
      let children :=
        (fix each (es : list (string * node)) : list (string * walker) :=
           match es with
           | [] => []
           | (name, child) :: es' => (name, _orig_os_walk topdown child) :: each es'
           end) entries in
      let dirs := subdirectories entries in
      let nondirs := plain_files entries in
      fun top after =>
        if topdown then
          Yield top dirs nondirs
                (fun dirs' _ => descend children top dirs' after)
        else
          descend children top dirs (Yield top dirs nondirs (fun _ _ => after))
  end.

(** [for ... in os_walk(top)]: the traversal a passive consumer sees. *)
Definition traversal (topdown : bool) (root : node) (top : string) : list triple :=
  consume (os_walk (_orig_os_walk topdown root top Stop)).

(** Names are unique within a directory, at every level. *)
Fixpoint well_formed (n : node) : Prop :=
  match n with
  | File => True
  | DirLink => True
  | Dir entries =>
      NoDup entries.*1 /\
      (fix all (es : list (string * node)) : Prop :=
         match es with
         | [] => True
         | (_, child) :: es' => well_formed child /\ all es'
         end) entries
  end.

(** The same tree, each directory listed in a possibly different order. *)
Inductive reordered : node -> node -> Prop :=
| reordered_file : reordered File File
| reordered_link : reordered DirLink DirLink
| reordered_dir es1 es2 : reordered_entries es1 es2 -> reordered (Dir es1) (Dir es2)
with reordered_entries : list (string * node) -> list (string * node) -> Prop :=
| reordered_nil : reordered_entries [] []
| reordered_skip name c1 c2 es1 es2 :
    reordered c1 c2 -> reordered_entries es1 es2 ->
    reordered_entries ((name, c1) :: es1) ((name, c2) :: es2)
| reordered_swap nx ny cx cy cx' cy' es1 es2 :
    reordered cx cx' -> reordered cy cy' -> reordered_entries es1 es2 ->
    reordered_entries ((ny, cy) :: (nx, cx) :: es1) ((nx, cx') :: (ny, cy') :: es2)
| reordered_trans es1 es2 es3 :
    reordered_entries es1 es2 -> reordered_entries es2 es3 ->
    reordered_entries es1 es3.

Scheme reordered_ind' := Minimality for reordered Sort Prop
  with reordered_entries_ind' := Minimality for reordered_entries Sort Prop.

Combined Scheme reordered_mutind from reordered_ind', reordered_entries_ind'.

(** Both lists of a yielded triple are in ascending order. *)
Definition level_sorted (t : triple) : Prop :=
  Sorted String.le t.1.2 /\ Sorted String.le t.2.

(** *** Walks that a passive consumer of [os_walk] cannot tell apart *)

Definition same_output (g1 g2 : generator) : Prop :=
  consume (os_walk g1) = consume (os_walk g2).

Definition same_walk (w1 w2 : walker) : Prop :=
  forall top after1 after2,
    same_output after1 after2 -> same_output (w1 top after1) (w2 top after2).

Definition same_child (c1 c2 : option walker) : Prop :=
  match c1, c2 with
  | Some w1, Some w2 => same_walk w1 w2
  | None, None => True
  | _, _ => False
  end.

(** The walkers of a directory's entries, by name. *)
Definition children (topdown : bool) (entries : list (string * node)) : list (string * walker) :=
  (fun e => (e.1, _orig_os_walk topdown e.2)) <$> entries.

Definition entries_well_formed (entries : list (string * node)) : Prop :=
  NoDup entries.*1 /\ Forall (fun e => well_formed e.2) entries.

(** What a reordering keeps, for nodes and for lists of entries. *)
Definition node_kept (n1 n2 : node) : Prop :=
  is_dir n1 = is_dir n2 /\
  (well_formed n1 ->
   well_formed n2 /\ same_walk (_orig_os_walk true n1) (_orig_os_walk true n2)).

Definition entries_kept (es1 es2 : list (string * node)) : Prop :=
  (es1.*1 ≡ₚ es2.*1) /\
  (subdirectories es1 ≡ₚ subdirectories es2) /\
  (plain_files es1 ≡ₚ plain_files es2) /\
  (entries_well_formed es1 ->
   entries_well_formed es2 /\
   forall name, same_child (find name (children true es1)) (find name (children true es2))).

End Traversal.

(** ** The interpreter state and the [monkeypatch] scope *)

Module Runtime.

(** Objects that carry attributes. A built-in function refuses new ones. *)
Inductive object : Type :=
| Module (id : positive)
| Function (id : positive)
| Builtin (id : positive).

Global Instance object_eq_dec : EqDecision object.
Proof. solve_decision. Defined.

Global Instance object_countable : Countable object.
Proof.
  refine (inj_countable'
            (fun o => match o with
                      | Module i => inl i
                      | Function i => inr (inl i)
                      | Builtin i => inr (inr i)
                      end)
            (fun s => match s with
                      | inl i => Module i
                      | inr (inl i) => Function i
                      | inr (inr i) => Builtin i
                      end) _).
  by intros [].
Defined.

(** The two tar writer classes in play: the stock one and the subclass
    declared at line 152. *)
Inductive tar_class : Type :=
| TarFile
| TarFile644.

Inductive value : Type :=
| None_
| Num (n : Z)
| Ref (o : object)
| Open (cls : tar_class).   (* the classmethod [cls.open], bound to [cls] *)

Inductive tar_format : Type :=
| USTAR_FORMAT
| GNU_FORMAT
| PAX_FORMAT.

(** A tar writer, as opened: its class, its [format] attribute, and the
    two primitives [os] offered while it ran. *)
Record tar_writer : Type := {
  writer_class : tar_class;
  writer_format : tar_format;
  seen_listdir : result value;
  seen_lstat : result value
}.

Record world : Type := {
  attrs : gmap (object * string) value;   (* attributes of live objects *)
  sys_modules : gmap string object;       (* [sys.modules] *)
  next_module : positive;                 (* allocation of module objects *)
  opened : list tar_writer                (* every tar writer opened so far *)
}.

Definition with_attrs (w : world) (a : gmap (object * string) value) : world :=
  {| attrs := a; sys_modules := sys_modules w;
     next_module := next_module w; opened := opened w |}.

Definition with_sys_modules (w : world) (m : gmap string object) : world :=
  {| attrs := attrs w; sys_modules := m;
     next_module := next_module w; opened := opened w |}.

(** [getattr(o, name)]. *)
Definition getattr (w : world) (o : object) (name : string) : result value :=
  match attrs w !! (o, name) with
  | Some v => Ok v
  | None => Raise AttributeError
  end.

(** [setattr(o, name, v)]. *)
Definition setattr (w : world) (o : object) (name : string) (v : value) : result world :=
  match o with
  | Builtin _ => Raise AttributeError
  | _ => Ok (with_attrs w (<[(o, name) := v]> (attrs w)))
  end.

(** [target.name = v] where [target] is any value. *)
Definition assign (w : world) (target : value) (name : string) (v : value) : result world :=
  match target with
  | Ref o => setattr w o name v
  | _ => Raise AttributeError
  end.

(** The body of a [with] statement: it may change the world, and it ends
    with a value or with an exception. *)
Definition block : Type := world -> world * result value.

(** [with monkeypatch(mod, name, func): body], lines 58-66.
    Line 60 runs before the [try]; the [finally] clause runs however the
    [try] is left, and an exception raised inside it replaces the outcome. *)
Definition monkeypatch (mod_ : object) (name : string) (func : value)
    (body : block) : block := fun w =>
  match getattr w mod_ name with
  | Raise e => (w, Raise e)
  | Ok orig_func =>
      let '(w1, outcome) :=
        match setattr w mod_ name func with
        | Ok w0 => body w0
        | Raise e => (w, Raise e)
        end in
      match setattr w1 mod_ name orig_func with
      | Raise e => (w1, Raise e)
      | Ok w2 =>
          match assign w2 func "original" None_ with
          | Raise e => (w2, Raise e)
          | Ok w3 => (w3, outcome)
          end
      end
  end.

End Runtime.

(** ** The zip fix-up for [wheel] *)

Module Zip.

Definition xFFFF : Z := 65535.

Record ZipInfo : Type := {
  filename : string;
  external_attr : Z
}.

Record ZipFile : Type := {
  filelist : list ZipInfo
}.

Definition set_external_attr (zipinfo : ZipInfo) (attr : Z) : ZipInfo :=
  {| filename := filename zipinfo; external_attr := attr |}.

(** [_fix_last_zipinfo], lines 134-138. The entry is changed in place, so
    the archive's list holds the changed entry afterwards. *)
Definition _fix_last_zipinfo (zipfile : ZipFile) (mode : option Z) : result ZipFile :=
  match last (filelist zipfile) with
  | None => Raise IndexError
  | Some zipinfo =>
      let mode :=
        match mode with
        | None => normalize_mode (Z.shiftr (external_attr zipinfo) 16)
        | Some mode => mode
        end in
      let attr := Z.lor (Z.land (external_attr zipinfo) xFFFF) (Z.shiftl mode 16) in
      Ok {| filelist := <[pred (length (filelist zipfile)) := set_external_attr zipinfo attr]>
                          (filelist zipfile) |}
  end.

Section Wrappers.

(** [WheelFile.write] and [WheelFile.writestr] as found at import, lines
    139 and 144; [args] stands for whatever the caller passes. *)
Context {args : Type}.
Variables _orig_WheelFile_write _orig_WheelFile_writestr : ZipFile -> args -> result ZipFile.

(** [WheelFile_write], lines 141-143. *)
Definition WheelFile_write (self : ZipFile) (a : args) : result ZipFile :=
  self' ← _orig_WheelFile_write self a;
  _fix_last_zipinfo self' None.

(** [WheelFile_writestr], lines 146-148. *)
Definition WheelFile_writestr (self : ZipFile) (a : args) : result ZipFile :=
  self' ← _orig_WheelFile_writestr self a;
  _fix_last_zipinfo self' (Some o100644).

End Wrappers.

(** The permission field of an entry. *)
Definition stored_mode (zipinfo : ZipInfo) : Z := Z.shiftr (external_attr zipinfo) 16.

End Zip.

(** ** The tar and zip builders *)

Module Builders.

Import Runtime.

(** Objects named by the source: module [os] and the four substitutes
    defined at lines 69-121. *)
Definition os : object := Module 1.
Definition os_listdir : value := Ref (Function 1).
Definition os_walk : value := Ref (Function 2).
Definition os_lstat : value := Ref (Function 3).
Definition os_stat : value := Ref (Function 4).

(** [types.ModuleType(name)]: a new module object. *)
Definition ModuleType (w : world) : object * world :=
  (Module (next_module w),
   {| attrs := attrs w; sys_modules := sys_modules w;
      next_module := Pos.succ (next_module w); opened := opened w |}).

Definition log_writer (w : world) (t : tar_writer) : world :=
  {| attrs := attrs w; sys_modules := sys_modules w;
     next_module := next_module w; opened := opened w ++ [t] |}.

Section Stock.

(** [tarfile.DEFAULT_FORMAT], the [format] of the stock [TarFile]: GNU
    or pax, depending on the Python version. *)
Variable DEFAULT_FORMAT : tar_format.

(** [class TarFile644(tarfile.TarFile): format = tarfile.USTAR_FORMAT],
    lines 152-153, next to the class it derives from. *)
Definition format (cls : tar_class) : tar_format :=
  match cls with
  | TarFile => DEFAULT_FORMAT
  | TarFile644 => USTAR_FORMAT
  end.

(** What the writer does once open (adding the tree, closing): it ends
    with the archive's name or with an exception. *)
Variable tar_add : world -> result value.

(** [distutils.archive_util.make_tarball] of the standard library, as far
    as it matters here: [import tarfile] takes the module registered in
    [sys.modules] (the real one when none is), [tarfile.open] makes a
    writer of the class that [open] is bound to, and the writer works with
    the primitives module [os] offers at that moment. *)
Definition distutils_make_tarball : block := fun w =>
  let opener :=
    match sys_modules w !! "tarfile" with
    | Some tarfile => getattr w tarfile "open"
    | None => Ok (Open TarFile)
    end in
  match opener with
  | Ok (Open cls) =>
      let tar := {| writer_class := cls; writer_format := format cls;
                    seen_listdir := getattr w os "listdir";
                    seen_lstat := getattr w os "lstat" |} in
      (log_writer w tar, tar_add w)
  | Ok _ => (w, Raise TypeError)
  | Raise e => (w, Raise e)
  end.

(** [distutils.archive_util.make_zipfile], left abstract. *)
Variable distutils_make_zipfile : block.

(** [make_tarball], lines 155-166. *)
Definition make_tarball : block := fun w =>
  let orig_sys_modules := sys_modules w in
  let '(tarfile_mod, w) := ModuleType w in
  match setattr w tarfile_mod "open" (Open TarFile644) with
  | Raise e => (w, Raise e)
  | Ok w =>
      let w := with_sys_modules w (<["tarfile" := tarfile_mod]> (sys_modules w)) in
      let '(w, outcome) :=
        monkeypatch os "listdir" os_listdir
          (monkeypatch os "lstat" os_lstat distutils_make_tarball) w in
      (with_sys_modules w orig_sys_modules, outcome)
  end.

(** [make_zipfile], lines 168-171. *)
Definition make_zipfile : block :=
  monkeypatch os "walk" os_walk
    (monkeypatch os "stat" os_stat distutils_make_zipfile).

End Stock.

End Builders.

(** ** The format table and [install] *)

Module Registry.

(** Function objects that can head an entry of [ARCHIVE_FORMATS]. The two
    closures are created afresh by every run of [install]; [run] tells the
    runs apart. *)
Inductive builder : Type :=
| distutils_make_tarball
| distutils_make_zipfile
| make_tarball (run : nat)
| make_zipfile (run : nat)
| other_builder (id : positive).

Global Instance builder_eq_dec : EqDecision builder.
Proof. solve_decision. Defined.

(** An entry [(func, kwargs, description)]: the function and the rest of
    the tuple, [fmt[1:]]. *)
Definition format_entry : Type := builder * list string.

(** How the module found [wheel] when it was imported, lines 49-52 and
    123-148. *)
Inductive wheel_support : Type :=
| no_wheel
| has_archive_wheelfile
| has_WheelFile.

Inductive hook : Type :=
| stock
| normalized.

Record process : Type := {
  ARCHIVE_FORMATS : gmap string format_entry;       (* [distutils.archive_util.ARCHIVE_FORMATS] *)
  runs : nat;                               (* how often [install] has run *)
  bdist_wheel_archive_wheelfile : hook;     (* [wheel.bdist_wheel.archive_wheelfile] *)
  WheelFile_write : hook;                   (* [wheel.wheelfile.WheelFile.write] *)
  WheelFile_writestr : hook                 (* [wheel.wheelfile.WheelFile.writestr] *)
}.

(** [patch_format], lines 173-179, inside run number [run]. *)
Definition patch_format (run : nat) (fmt : format_entry) : format_entry :=
  let func := fmt.1 in
  let func :=
    if decide (func = distutils_make_tarball) then make_tarball run
    else if decide (func = distutils_make_zipfile) then make_zipfile run
    else func in
  (func, fmt.2).

(** [install], lines 150-194. *)
Definition install (wheel : wheel_support) (p : process) : process :=
  let run := runs p in
  let archive_formats := patch_format run <$> ARCHIVE_FORMATS p in
  {| ARCHIVE_FORMATS := archive_formats;
     runs := S run;
     bdist_wheel_archive_wheelfile :=
       match wheel with
       | has_archive_wheelfile => normalized
       | _ => bdist_wheel_archive_wheelfile p
       end;
     WheelFile_write :=
       match wheel with
       | has_WheelFile => normalized
       | _ => WheelFile_write p
       end;
     WheelFile_writestr :=
       match wheel with
       | has_WheelFile => normalized
       | _ => WheelFile_writestr p
       end |}.

(** An entry that [install] rewrites. *)
Definition is_stock (f : format_entry) : bool :=
  match f.1 with
  | distutils_make_tarball | distutils_make_zipfile => true
  | _ => false
  end.

(** The table distutils ships. *)
Definition shipped : gmap string format_entry :=
  {[ "gztar" := (distutils_make_tarball, ["compress=gzip"; "gzip'ed tar-file"]);
     "bztar" := (distutils_make_tarball, ["compress=bzip2"; "bzip2'ed tar-file"]);
     "xztar" := (distutils_make_tarball, ["compress=xz"; "xz'ed tar-file"]);
     "ztar" := (distutils_make_tarball, ["compress=compress"; "compressed tar file"]);
     "tar" := (distutils_make_tarball, ["compress=None"; "uncompressed tar file"]);
     "zip" := (distutils_make_zipfile, ["ZIP file"]) ]}.

End Registry.

(** ** Consumers that steer the walk *)

Module Walks.

Import Traversal.

(** A [for] loop over a walk whose body notes the triple it is handed and
    then rewrites [dirnames] in place (as in [dirnames[:] = edit(dirnames)])
    before the next triple is asked for. *)
Fixpoint consume_with (edit : list string -> list string) (g : generator) : list triple :=
  match g with
  | Stop => []
  | Yield dirpath dirnames filenames resume =>
      (dirpath, dirnames, filenames) :: consume_with edit (resume (edit dirnames) filenames)
  end.

(** What such a loop over [os_walk(top)] notes. *)
Definition traversal_with (edit : list string -> list string) (topdown : bool)
    (root : node) (top : string) : list triple :=
  consume_with edit (os_walk (_orig_os_walk topdown root top Stop)).

(** The triples of the entries called [names], one entry after the other;
    a name that is not among [entries] contributes nothing. *)
Definition visit (entries : list (string * node)) (sub : node -> string -> list triple)
    (top : string) (names : list string) : list triple :=
  flat_map (fun name =>
              match find name entries with
              | Some child => sub child (join top name)
              | None => []
              end) names.

(** What is walked after an entry does not change what the entry yields. *)
Definition splits (edit : list string -> list string) (topdown : bool) (n : node) : Prop :=
  forall top after,
    consume_with edit (os_walk (_orig_os_walk topdown n top after)) =
      traversal_with edit topdown n top ++ consume_with edit (os_walk after).

End Walks.

(** ** The version guard *)

Module Guard.




End Guard.

(** ** The wrapper for old versions of [wheel] *)

Module Wheel.

Import Runtime Builders.

Section Archive.

(** [wheel.bdist_wheel.archive_wheelfile] as found at import, line 125. *)
Variable _orig_archive_wheelfile : block.

(** [archive_wheelfile], lines 129-132. *)
Definition archive_wheelfile : block :=
  monkeypatch os "stat" os_stat _orig_archive_wheelfile.

End Archive.

End Wheel.

(** ** The writers of [wheel], with both wrappers installed *)

Module Installed.

Import Zip.

(** [zipfile.ZipFile.writestr(self, zinfo, data)] of the standard library:
    the entry is appended as it is given. [WheelFile.writestr] of [wheel]
    calls it and then records a hash, which plays no part here. *)
Definition _orig_WheelFile_writestr (self : ZipFile) (zinfo : ZipInfo) : result ZipFile :=
  Ok {| filelist := filelist self ++ [zinfo] |}.

(** [WheelFile.write(filename)] of [wheel]: it stats the file, builds an
    entry whose external attributes hold the captured mode,
    [(S_IMODE(st_mode) | S_IFMT(st_mode)) << 16], and hands the entry to
    [self.writestr], that is to whatever the class has as [writestr] at
    that moment. A file is given by its name and its [st_mode]. *)
Definition _orig_WheelFile_write (writestr : ZipFile -> ZipInfo -> result ZipFile)
    (self : ZipFile) (file : string * Z) : result ZipFile :=
  writestr self {| filename := file.1;
                   external_attr := Z.shiftl (Z.land file.2 xFFFF) 16 |}.

(** The two methods of the class once [install] has run lines 193-194:
    both are the wrappers, and the stock [write] reaches [writestr]
    through the class. *)
Definition installed_writestr : ZipFile -> ZipInfo -> result ZipFile :=
  WheelFile_writestr _orig_WheelFile_writestr.

Definition installed_write : ZipFile -> string * Z -> result ZipFile :=
  WheelFile_write (_orig_WheelFile_write installed_writestr).

(** The class before [install]. *)
Definition stock_write : ZipFile -> string * Z -> result ZipFile :=
  _orig_WheelFile_write _orig_WheelFile_writestr.

End Installed.

(** ** Sample data *)

Module Samples.

(** A record as a Linux [os.stat] of an ordinary file owned by uid 1000,
    gid 1000 would give. *)
Definition sample_stat : Stat.stat_result :=
  {| Stat.items := Stat.Int <$> [o100644; 131; 2049; 1; 1000; 1000; 12; 1700000000; 1700000000; 1700000000];
     Stat.attributes :=
       {[ "st_mode" := Stat.Int o100644; "st_ino" := Stat.Int 131; "st_dev" := Stat.Int 2049;
          "st_nlink" := Stat.Int 1; "st_uid" := Stat.Int 1000; "st_gid" := Stat.Int 1000;
          "st_size" := Stat.Int 12; "st_mtime" := Stat.Obj 1; "st_blocks" := Stat.Int 8 ]} |}.

(** The tree of the spec's scenario, [b.txt] before [a/] on disk, and the
    same tree listed the other way round. *)
Definition tree_ba : Traversal.node :=
  Traversal.Dir [("b.txt", Traversal.File);
                 ("a", Traversal.Dir [("c.txt", Traversal.File)])].

Definition tree_ab : Traversal.node :=
  Traversal.Dir [("a", Traversal.Dir [("c.txt", Traversal.File)]);
                 ("b.txt", Traversal.File)].

(** Two subdirectories, in either order on disk. *)
Definition tree_yx : Traversal.node :=
  Traversal.Dir [("y", Traversal.Dir [("1", Traversal.File)]);
                 ("x", Traversal.Dir [("2", Traversal.File)])].

Definition tree_xy : Traversal.node :=
  Traversal.Dir [("x", Traversal.Dir [("2", Traversal.File)]);
                 ("y", Traversal.Dir [("1", Traversal.File)])].

Definition listdir_ba (path : string) : result (list string) := Ok ["b.txt"; "a"].
Definition listdir_ab (path : string) : result (list string) := Ok ["a"; "b.txt"].

(** A world where [os.listdir] is a built-in function. *)
Definition world0 : Runtime.world :=
  {| Runtime.attrs :=
       {[ (Builders.os, "listdir") := Runtime.Ref (Runtime.Builtin 1);
          (Builders.os, "lstat") := Runtime.Ref (Runtime.Builtin 2) ]};
     Runtime.sys_modules := {[ "os" := Builders.os; "tarfile" := Runtime.Module 2 ]};
     Runtime.next_module := 3;
     Runtime.opened := [] |}.

(** An operation that fails with [ENOENT], and one that succeeds. *)
Definition failing : Runtime.block := fun w => (w, Raise (OSError 2)).
Definition succeeding : Runtime.block := fun w => (w, Ok Runtime.None_).

(** A zip archive with one entry. *)
Definition archive0 : Zip.ZipFile :=
  {| Zip.filelist := [{| Zip.filename := "pkg/__init__.py"; Zip.external_attr := Z.shiftl o100644 16 |}] |}.


(** A process that has just imported distutils. *)
Definition process0 : Registry.process :=
  {| Registry.ARCHIVE_FORMATS := Registry.shipped;
     Registry.runs := 0;
     Registry.bdist_wheel_archive_wheelfile := Registry.stock;
     Registry.WheelFile_write := Registry.stock;
     Registry.WheelFile_writestr := Registry.stock |}.

(** A record whose tuple and attributes disagree about the mode, and a
    bare tuple without attributes. *)
Definition skewed_stat : Stat.stat_result :=
  {| Stat.items := Stat.Int <$> [0; 131; 2049; 1; 1000; 1000; 12; 0; 0; 0];
     Stat.attributes := {[ "st_mode" := Stat.Int 33216 ]} |}.

Definition bare_tuple : Stat.stat_result :=
  {| Stat.items := Stat.Int <$> [o100644; 131; 2049; 1; 1000; 1000; 12; 0; 0; 0];
     Stat.attributes := ∅ |}.

(** A world where [os] has all four primitives, as built-in functions. *)
Definition world1 : Runtime.world :=
  {| Runtime.attrs :=
       {[ (Builders.os, "listdir") := Runtime.Ref (Runtime.Builtin 1);
          (Builders.os, "lstat") := Runtime.Ref (Runtime.Builtin 2);
          (Builders.os, "walk") := Runtime.Ref (Runtime.Function 9);
          (Builders.os, "stat") := Runtime.Ref (Runtime.Builtin 3) ]};
     Runtime.sys_modules := {[ "os" := Builders.os; "tarfile" := Runtime.Module 2 ]};
     Runtime.next_module := 3;
     Runtime.opened := [] |}.

(** An operation that reports which [os.stat] it found. *)
Definition probe_stat : Runtime.block := fun w => (w, Runtime.getattr w Builders.os "stat").

End Samples.

Import Samples.

(** * Properties *)

(** ** Permission bits *)

Example normalize_0600 : normalize_mode 384 = o644.
Proof. reflexivity. Qed.

Example normalize_0500 : normalize_mode 320 = o755.
Proof. reflexivity. Qed.

Example normalize_regular : normalize_mode o100755 = o100755.
Proof. reflexivity. Qed.

Example normalize_negative : normalize_mode (-1) = -19.
Proof. reflexivity. Qed.

Example normalize_setuid : normalize_mode o4755 = o4755.
Proof. reflexivity. Qed.

(** ** Bit-level description of [normalize_mode] *)

Section ModeBits.

Lemma truthy_bit (x : Z) : truthy (Z.land x o100) = Z.testbit x owner_x.
Proof.
  unfold truthy, o100, owner_x.
  change 64 with (2 ^ 6).
  destruct (Z.testbit x 6) eqn:Hb.
  - apply negb_true_iff, Z.eqb_neq. intros H0.
    assert (Z.testbit (Z.land x (2 ^ 6)) 6 = true) as Ht.
    { rewrite Z.land_spec, Hb, Z.pow2_bits_true; [done | lia]. }
    rewrite H0, Z.bits_0 in Ht. discriminate.
  - apply negb_false_iff, Z.eqb_eq, Z.bits_inj'. intros n Hn.
    rewrite Z.land_spec, Z.bits_0.
    destruct (decide (n = 6)) as [-> | Hne].
    + by rewrite Hb.
    + rewrite Z.pow2_bits_false by lia. apply andb_false_r.
Qed.

(** A number below [2 ^ k] has no bit at position [k] or above. *)
Lemma high_bit_clear (c k n : Z) : 0 <= c < 2 ^ k -> k <= n -> Z.testbit c n = false.
Proof.
  intros Hc Hn. destruct (decide (c = 0)) as [-> | Hnz]; [apply Z.bits_0 |].
  apply Z.bits_above_log2; [lia |].
  assert (Z.log2 c < k); [| lia].
  apply Z.log2_lt_pow2; lia.
Qed.

Lemma small_high_bit (c n : Z) : 0 <= c < 512 -> 9 <= n -> Z.testbit c n = false.
Proof. intros Hc Hn. apply (high_bit_clear c 9); [| done]. by change (2 ^ 9) with 512. Qed.

(** Every bit of the result, read off the three assignments. *)
Lemma normalize_mode_testbit (m n : Z) :
  0 <= n ->
  Z.testbit (normalize_mode m) n =
    if decide (9 <= n) then Z.testbit m n
    else if decide (n = 8 \/ n = 7 \/ n = 5 \/ n = 2) then true
    else if decide (n = 6 \/ n = 3 \/ n = 0) then Z.testbit m 6
    else false.
Proof.
  intros Hn. unfold normalize_mode.
  rewrite truthy_bit. unfold owner_x.
  assert (Z.testbit (Z.lor (Z.land m (Z.lnot o77)) o644) 6 = Z.testbit m 6) as ->.
  { rewrite Z.lor_spec, Z.land_spec, Z.lnot_spec by lia.
    unfold o77, o644. simpl (Z.testbit 63 6). simpl (Z.testbit 420 6).
    by rewrite andb_true_r, orb_false_r. }
  case_decide as H9.
  - assert (Z.testbit o77 n = false) as E1 by (apply small_high_bit; unfold o77; lia).
    assert (Z.testbit o644 n = false) as E2 by (apply small_high_bit; unfold o644; lia).
    assert (Z.testbit o111 n = false) as E3 by (apply small_high_bit; unfold o111; lia).
    destruct (Z.testbit m 6);
      rewrite ?Z.lor_spec, ?Z.land_spec, ?Z.lnot_spec, ?E1, ?E2, ?E3 by lia;
      by destruct (Z.testbit m n).
  - assert (n = 0 \/ n = 1 \/ n = 2 \/ n = 3 \/ n = 4 \/ n = 5 \/ n = 6 \/ n = 7 \/ n = 8)
      as Hcases by lia.
    destruct (Z.testbit m 6) eqn:H6;
      destruct Hcases as [-> | [-> | [-> | [-> | [-> | [-> | [-> | [-> | ->]]]]]]]];
      rewrite ?Z.lor_spec, ?Z.land_spec, ?Z.lnot_spec, ?H6 by lia;
      repeat match goal with
        | |- context [Z.testbit m ?k] => generalize (Z.testbit m k); intros []
        end;
      reflexivity.
Qed.

(** The low nine bits are one of two constants, chosen by the owner's
    execute bit of the input. *)
Lemma normalize_mode_low (m : Z) :
  Z.land (normalize_mode m) o777 = if Z.testbit m owner_x then o755 else o644.
Proof.
  apply Z.bits_inj'. intros n Hn.
  rewrite Z.land_spec, normalize_mode_testbit by done.
  unfold owner_x. case_decide as H9.
  - rewrite (small_high_bit o777 n) by (unfold o777; lia).
    rewrite andb_false_r.
    destruct (Z.testbit m 6); symmetry; apply small_high_bit; unfold o755, o644; lia.
  - assert (n = 0 \/ n = 1 \/ n = 2 \/ n = 3 \/ n = 4 \/ n = 5 \/ n = 6 \/ n = 7 \/ n = 8)
      as Hcases by lia.
    destruct (Z.testbit m 6);
      destruct Hcases as [-> | [-> | [-> | [-> | [-> | [-> | [-> | [-> | ->]]]]]]]];
      reflexivity.
Qed.

(** Everything above the low nine bits passes through. *)
Lemma normalize_mode_high (m k : Z) :
  9 <= k -> Z.shiftr (normalize_mode m) k = Z.shiftr m k.
Proof.
  intros Hk. apply Z.bits_inj'. intros n Hn.
  rewrite !Z.shiftr_spec, normalize_mode_testbit by lia.
  case_decide; [done | lia].
Qed.

(** Without setuid, setgid and sticky bits in the input, the twelve mode
    bits of the result are the nine permission bits. *)
Lemma normalize_mode_plain (m : Z) :
  Z.land m o7000 = 0 -> Z.land (normalize_mode m) o7777 = Z.land (normalize_mode m) o777.
Proof.
  intros Hplain. apply Z.bits_inj'. intros n Hn.
  rewrite !Z.land_spec.
  destruct (decide (n < 9)) as [Hlow | Hhigh].
  - assert (n = 0 \/ n = 1 \/ n = 2 \/ n = 3 \/ n = 4 \/ n = 5 \/ n = 6 \/ n = 7 \/ n = 8)
      as Hcases by lia.
    by destruct Hcases as [-> | [-> | [-> | [-> | [-> | [-> | [-> | [-> | ->]]]]]]]].
  - rewrite (small_high_bit o777 n) by (unfold o777; lia). rewrite andb_false_r.
    destruct (decide (n < 12)) as [Hspecial | Htype].
    + rewrite normalize_mode_testbit by done. rewrite decide_True by lia.
      assert (Z.testbit (Z.land m o7000) n = false) as Hbit by (rewrite Hplain; apply Z.bits_0).
      rewrite Z.land_spec in Hbit.
      assert (n = 9 \/ n = 10 \/ n = 11) as Hcases by lia.
      destruct Hcases as [-> | [-> | ->]];
        match type of Hbit with _ && ?c = _ => change c with true in Hbit end;
        rewrite andb_true_r in Hbit; by rewrite Hbit.
    + rewrite (high_bit_clear o7777 12 n) by (unfold o7777; lia). apply andb_false_r.
Qed.

End ModeBits.

(** C1, as the spec words it, fails on the mode of any regular file: the
    file-type bits of [st_mode] survive normalisation, so the result is
    neither of the two bare constants. *)
Lemma normalize_mode_keeps_file_type :
  ~ (normalize_mode o100644 = o644 \/ normalize_mode o100644 = o755).
Proof. vm_compute. intros [H | H]; discriminate H. Qed.

(** C1 (amended): for every raw mode [m], the nine permission bits of
    [normalize_mode m] are [0o644] or [0o755] and the file-type bits of [m]
    (those above the twelve mode bits) come back unchanged; when [m] has
    none of the setuid, setgid and sticky bits, the whole twelve-bit mode
    field of the result is [0o644] or [0o755]. *)
Theorem normalize_mode_permission_bits (m : Z) :
  (Z.land (normalize_mode m) o777 = o644 \/ Z.land (normalize_mode m) o777 = o755) /\
  Z.shiftr (normalize_mode m) 12 = Z.shiftr m 12 /\
  (Z.land m o7000 = 0 ->
   Z.land (normalize_mode m) o7777 = o644 \/ Z.land (normalize_mode m) o7777 = o755).
Proof.
  assert (Z.land (normalize_mode m) o777 = o644 \/ Z.land (normalize_mode m) o777 = o755)
    as Hlow.
  { rewrite normalize_mode_low. destruct (Z.testbit m owner_x); auto. }
  split; [exact Hlow |]. split; [by apply normalize_mode_high |].
  intros Hplain. by rewrite normalize_mode_plain.
Qed.

Lemma normalize_mode_permission_bits_witness :
  Z.land (normalize_mode o100755) o7777 = o755 /\
  Z.shiftr (normalize_mode o100755) 12 = Z.shiftr o100755 12.
Proof.
  destruct (normalize_mode_permission_bits o100755) as (_ & Htype & Hplain).
  split; [| exact Htype].
  destruct Hplain as [H | H]; [reflexivity | discriminate H | exact H].
Defined.

(** C4: for every raw mode [m], each of the three execute bits of
    [normalize_mode m] equals the owner-execute bit of [m]; so group and
    other execute are set exactly when owner execute was set in [m], and
    all three are clear otherwise. *)
Theorem normalize_mode_execute_bits (m : Z) :
  Z.testbit (normalize_mode m) group_x = Z.testbit m owner_x /\
  Z.testbit (normalize_mode m) other_x = Z.testbit m owner_x /\
  Z.testbit (normalize_mode m) owner_x = Z.testbit m owner_x.
Proof.
  unfold group_x, other_x, owner_x.
  rewrite !normalize_mode_testbit by lia.
  repeat split; reflexivity.
Qed.

(** C5: [normalize_mode] is idempotent. *)
Theorem normalize_mode_idempotent (m : Z) :
  normalize_mode (normalize_mode m) = normalize_mode m.
Proof.
  apply Z.bits_inj'. intros n Hn.
  rewrite (normalize_mode_testbit (normalize_mode m)) by done.
  rewrite (normalize_mode_testbit m 6) by lia.
  rewrite (normalize_mode_testbit m n) by done.
  repeat case_decide; try reflexivity; lia.
Qed.

(** ** The stat wrapper *)

Section StatWrapper.

Import Stat.

Variable class_namespace : gmap string value.

Example sample_mode :
  attribute class_namespace {| _original := sample_stat |} "st_mode" = Ok (Atom (Int o100644)).
Proof. reflexivity. Qed.

Example sample_uid_raw : getitem sample_stat ST_UID = Ok (Atom (Int 1000)).
Proof. reflexivity. Qed.

(** A negative index is not one of the three constants and goes to the
    wrapped tuple. *)
Example sample_negative_index :
  __getitem__ {| _original := sample_stat |} (-6) = Ok (Atom (Int 1000)).
Proof. reflexivity. Qed.

Lemma attribute_fallthrough (self : StatResult644) (attr : string) :
  attr <> "st_mode" -> attr <> "st_uid" -> attr <> "st_gid" ->
  attr <> "_original" -> class_namespace !! attr = None ->
  attribute class_namespace self attr = __getattr__ self attr.
Proof.
  intros Hm Hu Hg Ho Hns. unfold attribute.
  repeat case_decide; try contradiction.
  by rewrite Hns.
Qed.

(** The substitutes for [os.lstat] and [os.stat] wrap whatever the
    original returns and pass its exceptions on. *)
Lemma os_stat_wraps (_orig_os_lstat _orig_os_stat : string -> result stat_result) path :
  os_lstat _orig_os_lstat path =
    match _orig_os_lstat path with
    | Ok st => Ok {| _original := st |}
    | Raise e => Raise e
    end /\
  os_stat _orig_os_stat path =
    match _orig_os_stat path with
    | Ok st => Ok {| _original := st |}
    | Raise e => Raise e
    end.
Proof. split; reflexivity. Qed.

Lemma getitem_fallthrough (self : StatResult644) (n : Z) :
  n <> ST_MODE -> n <> ST_UID -> n <> ST_GID ->
  __getitem__ self n = getitem (_original self) n.
Proof.
  intros Hm Hu Hg. unfold __getitem__.
  apply Z.eqb_neq in Hm, Hu, Hg. by rewrite Hm, Hu, Hg.
Qed.

End StatWrapper.

(** C6: whatever record is wrapped, and whatever owner and group it holds,
    the wrapper answers 0 for the owner and for the group, by attribute
    ([st_uid], [st_gid]) and by index ([stat.ST_UID], [stat.ST_GID]). *)
Theorem StatResult644_ownership
    (class_namespace : gmap string Stat.value) (original : Stat.stat_result) :
  let self := {| Stat._original := original |} in
  Stat.attribute class_namespace self "st_uid" = Ok (Stat.Atom (Stat.Int 0)) /\
  Stat.attribute class_namespace self "st_gid" = Ok (Stat.Atom (Stat.Int 0)) /\
  Stat.__getitem__ self Stat.ST_UID = Ok (Stat.Atom (Stat.Int 0)) /\
  Stat.__getitem__ self Stat.ST_GID = Ok (Stat.Atom (Stat.Int 0)).
Proof. repeat split. Qed.

(** C10, as worded, fails on the wrapper's own slot: [_original] is none of
    the three names, yet the wrapper answers with the wrapped record where
    the record itself has no such attribute. *)
Lemma StatResult644_own_slot :
  "_original" <> "st_mode" /\ "_original" <> "st_uid" /\ "_original" <> "st_gid" /\
  Stat.attribute ∅ {| Stat._original := sample_stat |} "_original"
    <> Stat.getattr sample_stat "_original".
Proof. repeat split; discriminate. Qed.

(** C10 (amended): the wrapper passes on unchanged every index other than
    [ST_MODE], [ST_UID], [ST_GID], and every attribute that ordinary lookup
    does not find on the wrapper itself, that is every name other than
    [st_mode], [st_uid], [st_gid], the slot [_original] and the names of
    its class; the answer, value or exception, is the wrapped record's. *)
Theorem StatResult644_frame
    (class_namespace : gmap string Stat.value) (original : Stat.stat_result)
    (attr : string) (n : Z) :
  let self := {| Stat._original := original |} in
  (attr <> "st_mode" -> attr <> "st_uid" -> attr <> "st_gid" ->
   attr <> "_original" -> class_namespace !! attr = None ->
   Stat.attribute class_namespace self attr = Stat.getattr original attr) /\
  Stat.__getattr__ self attr = Stat.getattr original attr /\
  (n <> Stat.ST_MODE -> n <> Stat.ST_UID -> n <> Stat.ST_GID ->
   Stat.__getitem__ self n = Stat.getitem original n).
Proof.
  intros self. split; [| split].
  - intros. by rewrite attribute_fallthrough.
  - reflexivity.
  - intros. by rewrite getitem_fallthrough.
Qed.

Lemma StatResult644_frame_witness :
  Stat.attribute ∅ {| Stat._original := sample_stat |} "st_size" = Ok (Stat.Atom (Stat.Int 12)) /\
  Stat.__getitem__ {| Stat._original := sample_stat |} Stat.ST_SIZE = Ok (Stat.Atom (Stat.Int 12)).
Proof.
  destruct (StatResult644_frame ∅ sample_stat "st_size" Stat.ST_SIZE) as (Ha & _ & Hi).
  split.
  - rewrite Ha; [reflexivity | discriminate ..| reflexivity].
  - rewrite Hi; [reflexivity | discriminate ..].
Defined.

(** ** The [monkeypatch] scope *)

Section Scope.

Import Runtime.

Lemma getattr_with_attrs (w : world) (a : gmap (object * string) value) o name :
  getattr (with_attrs w a) o name =
    match a !! (o, name) with Some v => Ok v | None => Raise AttributeError end.
Proof. reflexivity. Qed.

Lemma setattr_is_insert (w w' : world) o name v :
  setattr w o name v = Ok w' -> w' = with_attrs w (<[(o, name) := v]> (attrs w)).
Proof. destruct o; simpl; congruence. Qed.

Lemma getattr_setattr_ne (w w' : world) o o' name name' v :
  (o, name) <> (o', name') ->
  setattr w o name v = Ok w' -> getattr w' o' name' = getattr w o' name'.
Proof.
  intros Hne ->%setattr_is_insert. by rewrite getattr_with_attrs, lookup_insert_ne.
Qed.

Lemma setattr_module (w : world) m name v :
  setattr w (Module m) name v = Ok (with_attrs w (<[(Module m, name) := v]> (attrs w))).
Proof. reflexivity. Qed.

(** The scope leaves the attribute as it found it, provided the final
    [func.original = None] does not land on that very attribute. *)
Lemma monkeypatch_restores_attr (m : positive) name func (body : block) (w : world) :
  func <> Ref (Module m) \/ name <> "original" ->
  getattr (monkeypatch (Module m) name func body w).1 (Module m) name
    = getattr w (Module m) name.
Proof.
  intros Hdistinct. unfold monkeypatch.
  destruct (getattr w (Module m) name) as [orig_func | e] eqn:Horig; [| exact Horig].
  rewrite setattr_module.
  destruct (body _) as [w1 outcome]. rewrite setattr_module.
  set (w2 := with_attrs w1 _).
  assert (getattr w2 (Module m) name = Ok orig_func) as H2.
  { unfold w2. by rewrite getattr_with_attrs, lookup_insert_eq. }
  destruct (assign w2 func "original" None_) as [w3 | e] eqn:Hassign; simpl; [| exact H2].
  destruct func as [| | o |]; simpl in Hassign; try discriminate.
  rewrite <- H2. eapply getattr_setattr_ne; [| exact Hassign].
  intros [= -> <-]. destruct Hdistinct; congruence.
Qed.

(** With the attribute present, the scope runs the body on a world where
    the attribute is the replacement, and puts the original back. *)
Lemma monkeypatch_present (m : positive) name func (body : block) (w : world) orig_func :
  getattr w (Module m) name = Ok orig_func ->
  monkeypatch (Module m) name func body w =
    let w0 := with_attrs w (<[(Module m, name) := func]> (attrs w)) in
    let '(w1, outcome) := body w0 in
    let w2 := with_attrs w1 (<[(Module m, name) := orig_func]> (attrs w1)) in
    match assign w2 func "original" None_ with
    | Ok w3 => (w3, outcome)
    | Raise e => (w2, Raise e)
    end.
Proof.
  intros Horig. unfold monkeypatch. rewrite Horig. simpl.
  by destruct (body _) as [w1 outcome].
Qed.

Lemma monkeypatch_absent (o : object) name func (body : block) (w : world) e :
  getattr w o name = Raise e -> monkeypatch o name func body w = (w, Raise e).
Proof. intros Horig. unfold monkeypatch. by rewrite Horig. Qed.

End Scope.

(** C3: for every module, attribute name and replacement function (a
    Python function or a built-in one) and every wrapped operation, the
    module's attribute after the scope is what it was before, whether the
    operation returns or raises; and an exception of the operation leaves
    the scope as an exception. *)
Theorem monkeypatch_restores
    (m f : positive) (name : string) (body : Runtime.block) (w : Runtime.world) :
  let scope func := Runtime.monkeypatch (Runtime.Module m) name func body w in
  (forall func,
     func = Runtime.Ref (Runtime.Function f) \/ func = Runtime.Ref (Runtime.Builtin f) ->
     Runtime.getattr (scope func).1 (Runtime.Module m) name
       = Runtime.getattr w (Runtime.Module m) name) /\
  (forall func w0 w1 e,
     Runtime.setattr w (Runtime.Module m) name func = Ok w0 ->
     is_Some (Runtime.attrs w !! (Runtime.Module m, name)) ->
     body w0 = (w1, Raise e) ->
     Py.raised (scope func).2 = true).
Proof.
  intros scope. split.
  - intros func Hfunc. apply monkeypatch_restores_attr.
    left. destruct Hfunc as [-> | ->]; discriminate.
  - intros func w0 w1 e Hset [orig Horig] Hbody. unfold scope, Runtime.monkeypatch, Runtime.getattr.
    rewrite Horig, Hset, Hbody. simpl.
    by destruct (Runtime.assign _ func "original" Runtime.None_).
Qed.

Lemma monkeypatch_restores_witness :
  Runtime.getattr
    (Runtime.monkeypatch Builders.os "listdir" Builders.os_listdir failing world0).1
    Builders.os "listdir" = Ok (Runtime.Ref (Runtime.Builtin 1)) /\
  Py.raised (Runtime.monkeypatch Builders.os "listdir" Builders.os_listdir failing world0).2 = true /\
  Runtime.getattr
    (Runtime.monkeypatch Builders.os "listdir" Builders.os_listdir succeeding world0).1
    Builders.os "listdir" = Ok (Runtime.Ref (Runtime.Builtin 1)).
Proof.
  destruct (monkeypatch_restores 1 1 "listdir" failing world0) as [Hrestored Hraised].
  destruct (monkeypatch_restores 1 1 "listdir" succeeding world0) as [Hrestored' _].
  split; [| split].
  - etrans; [apply (Hrestored Builders.os_listdir); by left | reflexivity].
  - eapply (Hraised Builders.os_listdir); [reflexivity | by eexists | reflexivity].
  - etrans; [apply (Hrestored' Builders.os_listdir); by left | reflexivity].
Defined.

(** ** The zip fix-up *)

Section ZipFixup.

Import Zip.

(** Shifting the patched word back down gives the mode that was put in. *)
Lemma patched_high (attr mode : Z) :
  Z.shiftr (Z.lor (Z.land attr xFFFF) (Z.shiftl mode 16)) 16 = mode.
Proof.
  rewrite Z.shiftr_lor, Z.shiftr_land, Z.shiftr_shiftl_l by lia.
  change (Z.shiftr xFFFF 16) with 0.
  by rewrite Z.land_0_r, Z.lor_0_l, Z.sub_diag, Z.shiftl_0_r.
Qed.

(** The low sixteen bits are kept. *)
Lemma patched_low (attr mode : Z) :
  Z.land (Z.lor (Z.land attr xFFFF) (Z.shiftl mode 16)) xFFFF = Z.land attr xFFFF.
Proof.
  apply Z.bits_inj'. intros n Hn.
  rewrite !Z.land_spec, Z.lor_spec, Z.land_spec.
  destruct (decide (n < 16)) as [Hlt | Hge].
  - rewrite Z.shiftl_spec_low by done. by rewrite orb_false_r, <- andb_assoc, andb_diag.
  - assert (Z.testbit xFFFF n = false) as ->.
    { apply Z.bits_above_log2; [done |]. change (Z.log2 xFFFF) with 15. lia. }
    by rewrite !andb_false_r.
Qed.

(** The fix-up on an archive whose list ends with [zipinfo]. *)
Lemma fix_last_snoc (entries : list ZipInfo) (zipinfo : ZipInfo) (mode : option Z) :
  _fix_last_zipinfo {| filelist := entries ++ [zipinfo] |} mode =
    Ok {| filelist := entries ++
            [set_external_attr zipinfo
               (Z.lor (Z.land (external_attr zipinfo) xFFFF)
                      (Z.shiftl (match mode with
                                 | None => normalize_mode (Z.shiftr (external_attr zipinfo) 16)
                                 | Some mode => mode
                                 end) 16))] |}.
Proof.
  unfold _fix_last_zipinfo. simpl filelist.
  rewrite last_snoc, length_app, Nat.add_1_r. simpl pred.
  f_equal. f_equal.
  replace (length entries) with (length entries + 0)%nat by lia.
  by rewrite insert_app_r.
Qed.

(** An archive without entries has no last one. *)
Lemma fix_last_empty (mode : option Z) :
  _fix_last_zipinfo {| filelist := [] |} mode = Raise IndexError.
Proof. reflexivity. Qed.

End ZipFixup.

(** Each wrapper on its own, relative to the entry its stock writer leaves
    last in the archive: that entry's permission field (the external
    attributes above bit 16) is patched and nothing else changes; after
    [write], to [normalize_mode] of the mode found there; after
    [writestr], to the constant [0o100644]. *)
Lemma WheelFile_fixup
    {args : Type} (_orig_WheelFile_write _orig_WheelFile_writestr : Zip.ZipFile -> args -> result Zip.ZipFile)
    (self : Zip.ZipFile) (a : args) (entries : list Zip.ZipInfo) (zipinfo : Zip.ZipInfo) :
  (_orig_WheelFile_write self a = Ok {| Zip.filelist := entries ++ [zipinfo] |} ->
   exists patched,
     Zip.WheelFile_write _orig_WheelFile_write self a
       = Ok {| Zip.filelist := entries ++ [patched] |} /\
     Zip.stored_mode patched = normalize_mode (Zip.stored_mode zipinfo) /\
     Z.land (Zip.external_attr patched) Zip.xFFFF = Z.land (Zip.external_attr zipinfo) Zip.xFFFF /\
     Zip.filename patched = Zip.filename zipinfo) /\
  (_orig_WheelFile_writestr self a = Ok {| Zip.filelist := entries ++ [zipinfo] |} ->
   exists patched,
     Zip.WheelFile_writestr _orig_WheelFile_writestr self a
       = Ok {| Zip.filelist := entries ++ [patched] |} /\
     Zip.stored_mode patched = o100644 /\
     Z.land (Zip.external_attr patched) Zip.xFFFF = Z.land (Zip.external_attr zipinfo) Zip.xFFFF /\
     Zip.filename patched = Zip.filename zipinfo).
Proof.
  split; intros Horig; eexists; unfold Zip.WheelFile_write, Zip.WheelFile_writestr;
    rewrite Horig; simpl mbind; rewrite fix_last_snoc;
    (split; [reflexivity |]); unfold Zip.stored_mode; simpl;
    rewrite patched_high, patched_low; done.
Qed.

(** With both wrappers installed, [write] stores [0o100644] for every
    file: the entry has been through the fix-up of [writestr] before the
    fix-up of [write] reads its mode. *)
Lemma installed_write_mode (self : Zip.ZipFile) (file : string * Z) :
  exists patched,
    Installed.installed_write self file
      = Ok {| Zip.filelist := Zip.filelist self ++ [patched] |} /\
    Zip.filename patched = file.1 /\
    Zip.stored_mode patched = o100644.
Proof.
  unfold Installed.installed_write, Installed.installed_writestr, Installed._orig_WheelFile_write,
    Installed._orig_WheelFile_writestr, Zip.WheelFile_write, Zip.WheelFile_writestr.
  simpl. rewrite fix_last_snoc. simpl. rewrite fix_last_snoc.
  eexists. split; [reflexivity |]. split; [reflexivity |].
  unfold Zip.stored_mode. simpl. by rewrite !patched_high.
Qed.

(** C7 (defect): the claim fails for an entry written from file content.
    A file of mode [0o100700] is stored by the stock [write] with that
    mode, and [normalize_mode] of it is [0o100755]; written through the
    installed [write], the entry ends with mode [0o100644], because
    [install] replaces [writestr] as well and the stock [write] goes
    through it. *)
Theorem installed_write_drops_execute :
  (exists stored,
     Installed.stock_write archive0 ("bin/tool", o100700)
       = Ok {| Zip.filelist := Zip.filelist archive0 ++ [stored] |} /\
     Zip.stored_mode stored = o100700) /\
  normalize_mode o100700 = o100755 /\
  (exists patched,
     Installed.installed_write archive0 ("bin/tool", o100700)
       = Ok {| Zip.filelist := Zip.filelist archive0 ++ [patched] |} /\
     Zip.stored_mode patched = o100644) /\
  o100644 <> o100755.
Proof.
  split; [| split; [reflexivity | split; [| discriminate]]].
  - eexists. split; reflexivity.
  - eexists. split; reflexivity.
Qed.

(** ** The format table *)

Section FormatTable.

Import Registry.

Lemma patch_format_stock (run : nat) (e : format_entry) :
  is_stock (patch_format run e) = false.
Proof.
  destruct e as [func rest]. unfold patch_format, is_stock. simpl.
  repeat case_decide; simpl; [done | done |].
  by destruct func.
Qed.

Lemma patch_format_other (run : nat) (e : format_entry) :
  is_stock e = false -> patch_format run e = e.
Proof.
  destruct e as [func rest]. unfold patch_format, is_stock. simpl.
  intros Hstock. repeat case_decide; subst; try discriminate. reflexivity.
Qed.

Lemma patch_format_again (run run' : nat) (e : format_entry) :
  patch_format run' (patch_format run e) = patch_format run e.
Proof. apply patch_format_other, patch_format_stock. Qed.

Lemma install_lookup (wheel : wheel_support) (p : process) (key : string) :
  ARCHIVE_FORMATS (install wheel p) !! key = patch_format (runs p) <$> ARCHIVE_FORMATS p !! key.
Proof. unfold install. simpl. apply lookup_fmap. Qed.

Lemma install_table_again (wheel : wheel_support) (p : process) :
  ARCHIVE_FORMATS (install wheel (install wheel p)) = ARCHIVE_FORMATS (install wheel p).
Proof.
  apply map_eq. intros key. rewrite !install_lookup.
  destruct (ARCHIVE_FORMATS p !! key) as [e |]; simpl; [| done].
  by rewrite patch_format_again.
Qed.

Lemma install_hooks_again (wheel : wheel_support) (p : process) :
  let once := install wheel p in
  let twice := install wheel once in
  bdist_wheel_archive_wheelfile twice = bdist_wheel_archive_wheelfile once /\
  WheelFile_write twice = WheelFile_write once /\
  WheelFile_writestr twice = WheelFile_writestr once.
Proof. by destruct wheel. Qed.

End FormatTable.

(** C9: a second run of [install] leaves the format table as the first run
    made it. An entry that named the stock tar (zip) builder names, after
    one run and after two, the closure the first run created; an entry
    that names neither stock builder is the same after every run. The
    hooks set in [wheel] are the same after one run and after two. *)
Theorem install_idempotent
    (wheel : Registry.wheel_support) (p : Registry.process)
    (key : string) (e : Registry.format_entry) :
  let once := Registry.install wheel p in
  let twice := Registry.install wheel once in
  Registry.ARCHIVE_FORMATS p !! key = Some e ->
  Registry.ARCHIVE_FORMATS twice = Registry.ARCHIVE_FORMATS once /\
  (e.1 = Registry.distutils_make_tarball ->
   Registry.ARCHIVE_FORMATS once !! key = Some (Registry.make_tarball (Registry.runs p), e.2) /\
   Registry.ARCHIVE_FORMATS twice !! key = Some (Registry.make_tarball (Registry.runs p), e.2)) /\
  (e.1 = Registry.distutils_make_zipfile ->
   Registry.ARCHIVE_FORMATS once !! key = Some (Registry.make_zipfile (Registry.runs p), e.2) /\
   Registry.ARCHIVE_FORMATS twice !! key = Some (Registry.make_zipfile (Registry.runs p), e.2)) /\
  (Registry.is_stock e = false ->
   Registry.ARCHIVE_FORMATS once !! key = Some e /\
   Registry.ARCHIVE_FORMATS twice !! key = Some e) /\
  Registry.bdist_wheel_archive_wheelfile twice = Registry.bdist_wheel_archive_wheelfile once /\
  Registry.WheelFile_write twice = Registry.WheelFile_write once /\
  Registry.WheelFile_writestr twice = Registry.WheelFile_writestr once.
Proof.
  intros once twice Hkey.
  assert (Registry.ARCHIVE_FORMATS once !! key
            = Some (Registry.patch_format (Registry.runs p) e)) as Honce.
  { unfold once. by rewrite install_lookup, Hkey. }
  assert (Registry.ARCHIVE_FORMATS twice = Registry.ARCHIVE_FORMATS once) as Htwice
    by apply install_table_again.
  rewrite Htwice, Honce.
  split; [done |].
  destruct e as [func rest]. simpl.
  split; [| split; [| split]].
  - by intros ->.
  - by intros ->.
  - intros Hstock. by rewrite patch_format_other.
  - apply install_hooks_again.
Qed.

Lemma install_idempotent_witness :
  let once := Registry.install Registry.has_WheelFile process0 in
  let twice := Registry.install Registry.has_WheelFile once in
  Registry.ARCHIVE_FORMATS twice = Registry.ARCHIVE_FORMATS once /\
  Registry.ARCHIVE_FORMATS twice !! "gztar"
    = Some (Registry.make_tarball 0, ["compress=gzip"; "gzip'ed tar-file"]).
Proof.
  intros once twice.
  destruct (install_idempotent Registry.has_WheelFile process0 "gztar"
              (Registry.distutils_make_tarball, ["compress=gzip"; "gzip'ed tar-file"]))
    as (Htable & Htar & _); [reflexivity |].
  split; [exact Htable |].
  destruct Htar as [_ Htwice]; [reflexivity | exact Htwice].
Defined.

(** ** The tar builder *)

Section TarBuilder.

Import Runtime Builders.

Variable DEFAULT_FORMAT : tar_format.
Variable tar_add : world -> result value.

(** The stock builder opens one writer, of the class that
    [sys.modules["tarfile"].open] is bound to. *)
Lemma distutils_make_tarball_log (w : world) (tarfile : object) (cls : tar_class) :
  sys_modules w !! "tarfile" = Some tarfile ->
  getattr w tarfile "open" = Ok (Open cls) ->
  exists tar,
    opened (distutils_make_tarball DEFAULT_FORMAT tar_add w).1 = opened w ++ [tar] /\
    writer_class tar = cls /\ writer_format tar = format DEFAULT_FORMAT cls /\
    seen_listdir tar = getattr w os "listdir" /\ seen_lstat tar = getattr w os "lstat".
Proof.
  intros Hmod Hopen. unfold distutils_make_tarball. rewrite Hmod, Hopen.
  eexists. by repeat split.
Qed.

End TarBuilder.

(** C8: whatever the state of the interpreter, every tar writer opened in
    the course of [make_tarball] is of class [TarFile644] and has the ustar
    format, because [tarfile.open] resolves to [TarFile644.open] while the
    stock builder runs; with [os.listdir] and [os.lstat] present there is
    exactly one such writer and it works with the two substitutes; and
    [sys.modules] is afterwards what it was before the call. *)
Theorem make_tarball_ustar
    (DEFAULT_FORMAT : Runtime.tar_format) (tar_add : Runtime.world -> result Runtime.value)
    (w : Runtime.world) :
  let after := (Builders.make_tarball DEFAULT_FORMAT tar_add w).1 in
  (exists new,
     Runtime.opened after = Runtime.opened w ++ new /\
     Forall (fun tar => Runtime.writer_class tar = Runtime.TarFile644 /\
                        Runtime.writer_format tar = Runtime.USTAR_FORMAT) new /\
     (is_Some (Runtime.attrs w !! (Builders.os, "listdir")) ->
      is_Some (Runtime.attrs w !! (Builders.os, "lstat")) ->
      exists tar, new = [tar] /\
        Runtime.seen_listdir tar = Ok Builders.os_listdir /\
        Runtime.seen_lstat tar = Ok Builders.os_lstat)) /\
  Runtime.sys_modules after = Runtime.sys_modules w.
Proof.
  intros after. unfold after, Builders.make_tarball, Builders.ModuleType.
  simpl.
  set (tm := Runtime.Module (Runtime.next_module w)).
  set (w1 := Runtime.with_sys_modules _ _).
  destruct (Runtime.getattr w1 Builders.os "listdir") as [listdir0 | e] eqn:Hlistdir.
  2: { rewrite (monkeypatch_absent _ _ _ _ _ _ Hlistdir). simpl. split; [| done].
       exists []. rewrite app_nil_r. repeat split; [constructor |].
       intros [v Hv] _. unfold Runtime.getattr in Hlistdir. simpl in Hlistdir.
       rewrite lookup_insert_ne in Hlistdir by (intros [= _ ?]; discriminate).
       by rewrite Hv in Hlistdir. }
  rewrite (monkeypatch_present _ _ _ _ _ _ Hlistdir). cbv zeta.
  set (w2 := Runtime.with_attrs w1 _).
  destruct (Runtime.getattr w2 Builders.os "lstat") as [lstat0 | e] eqn:Hlstat.
  2: { rewrite (monkeypatch_absent _ _ _ _ _ _ Hlstat). simpl. split; [| done].
       exists []. rewrite app_nil_r. repeat split; [constructor |].
       intros _ [v Hv]. unfold Runtime.getattr in Hlstat. simpl in Hlstat.
       rewrite !lookup_insert_ne in Hlstat by (intros [= _ ?]; discriminate).
       by rewrite Hv in Hlstat. }
  rewrite (monkeypatch_present _ _ _ _ _ _ Hlstat). cbv zeta.
  set (w3 := Runtime.with_attrs w2 _).
  destruct (distutils_make_tarball_log DEFAULT_FORMAT tar_add w3 tm Runtime.TarFile644)
    as (tar & Hlog & Hclass & Hformat & Hseen_listdir & Hseen_lstat).
  { simpl. apply lookup_insert_eq. }
  { unfold Runtime.getattr. simpl.
    rewrite !lookup_insert_ne by (intros [= _ ?]; discriminate).
    by rewrite lookup_insert_eq. }
  destruct (Builders.distutils_make_tarball _ _ w3) as [w4 outcome].
  simpl in Hlog |- *.
  split; [| done].
  exists [tar]. repeat split; [done | | ].
  - by repeat constructor.
  - intros _ _. exists tar. rewrite Hseen_listdir, Hseen_lstat.
    unfold Runtime.getattr. simpl.
    rewrite lookup_insert_ne by discriminate.
    by rewrite !lookup_insert_eq.
Qed.

Lemma make_tarball_ustar_witness :
  let after :=
    (Builders.make_tarball Runtime.GNU_FORMAT (fun _ => Ok Runtime.None_) world0).1 in
  exists tar,
    Runtime.opened after = [tar] /\
    Runtime.writer_format tar = Runtime.USTAR_FORMAT /\
    Runtime.seen_listdir tar = Ok Builders.os_listdir /\
    Runtime.seen_lstat tar = Ok Builders.os_lstat.
Proof.
  intros after.
  destruct (make_tarball_ustar Runtime.GNU_FORMAT (fun _ => Ok Runtime.None_) world0)
    as [(new & Hopened & Hall & Hone) _].
  destruct Hone as (tar & -> & Hlistdir & Hlstat); [by eexists | by eexists |].
  exists tar. split; [exact Hopened |].
  apply Forall_singleton in Hall as [_ Hformat]. by repeat split.
Defined.

(** ** Sorted traversal *)

Section SortedTraversal.

Import Traversal.

Lemma sorted_Sorted (names : list string) : Sorted String.le (sorted names).
Proof. apply (Sorted_merge_sort String.le). Qed.

Lemma sorted_Permutation (names : list string) : sorted names ≡ₚ names.
Proof. apply merge_sort_Permutation. Qed.

(** The sorted list depends on the names only, not on their order. *)
Lemma sorted_order_independent (names1 names2 : list string) :
  names1 ≡ₚ names2 -> sorted names1 = sorted names2.
Proof.
  intros Hperm. apply (Sorted_unique String.le); try apply sorted_Sorted.
  by rewrite !sorted_Permutation.
Qed.

Lemma os_walk_level_sorted (underlying : generator) :
  Forall level_sorted (consume (os_walk underlying)).
Proof.
  induction underlying as [| dirpath dirnames filenames resume IH]; simpl.
  - constructor.
  - constructor; [| apply IH].
    split; apply sorted_Sorted.
Qed.

Lemma same_walk_trans (w1 w2 w3 : walker) :
  same_walk w1 w2 -> same_walk w2 w3 -> same_walk w1 w3.
Proof.
  intros H12 H23 top after1 after3 Hafter. unfold same_output in *.
  rewrite (H12 top after1 after1) by reflexivity. by apply H23.
Qed.

Lemma same_child_trans (c1 c2 c3 : option walker) :
  same_child c1 c2 -> same_child c2 c3 -> same_child c1 c3.
Proof.
  destruct c1, c2, c3; simpl; try done. apply same_walk_trans.
Qed.

Lemma _orig_os_walk_Dir (topdown : bool) (entries : list (string * node)) top after :
  _orig_os_walk topdown (Dir entries) top after =
    if topdown then
      Yield top (subdirectories entries) (plain_files entries)
            (fun dirs' _ => descend (children topdown entries) top dirs' after)
    else
      descend (children topdown entries) top (subdirectories entries)
              (Yield top (subdirectories entries) (plain_files entries) (fun _ _ => after)).
Proof.
  simpl.
  assert ((fix each (es : list (string * node)) : list (string * walker) :=
             match es with
             | [] => []
             | (name, child) :: es' => (name, _orig_os_walk topdown child) :: each es'
             end) entries = children topdown entries) as ->; [| done].
  induction entries as [| [name child] es IH]; [done |]. by rewrite IH.
Qed.

Lemma descend_same (ch1 ch2 : list (string * walker)) top names after1 after2 :
  (forall name, same_child (find name ch1) (find name ch2)) ->
  same_output after1 after2 ->
  same_output (descend ch1 top names after1) (descend ch2 top names after2).
Proof.
  intros Hch Hafter. induction names as [| name names IH]; [done |].
  simpl. specialize (Hch name).
  destruct (find name ch1), (find name ch2); simpl in Hch; try done.
  by apply Hch.
Qed.

Lemma well_formed_Dir (entries : list (string * node)) :
  well_formed (Dir entries) <-> entries_well_formed entries.
Proof.
  unfold entries_well_formed. simpl.
  assert ((fix all (es : list (string * node)) : Prop :=
             match es with
             | [] => True
             | (_, child) :: es' => well_formed child /\ all es'
             end) entries <-> Forall (fun e => well_formed e.2) entries) as ->; [| done].
  induction entries as [| [name child] es IH].
  - split; [constructor | done].
  - rewrite Forall_cons, IH. done.
Qed.

End SortedTraversal.

Section Reordering.

Import Traversal.

Lemma subdirectories_cons (n : string) (c : node) (entries : list (string * node)) :
  subdirectories ((n, c) :: entries) =
    if is_dir c then n :: subdirectories entries else subdirectories entries.
Proof. unfold subdirectories. rewrite filter_cons. simpl. by destruct (is_dir c). Qed.

Lemma plain_files_cons (n : string) (c : node) (entries : list (string * node)) :
  plain_files ((n, c) :: entries) =
    if is_dir c then plain_files entries else n :: plain_files entries.
Proof. unfold plain_files. rewrite filter_cons. simpl. by destruct (is_dir c). Qed.

Lemma entries_well_formed_cons (n : string) (c : node) (entries : list (string * node)) :
  entries_well_formed ((n, c) :: entries) <->
  (n ∉ entries.*1) /\ well_formed c /\ entries_well_formed entries.
Proof.
  unfold entries_well_formed. rewrite fmap_cons, NoDup_cons, Forall_cons. simpl. tauto.
Qed.

Ltac kept_cases :=
  split; [| split; [| split; [| intros Hwf; split]]].

Lemma reordered_kept :
  (forall n1 n2, reordered n1 n2 -> node_kept n1 n2) /\
  (forall es1 es2, reordered_entries es1 es2 -> entries_kept es1 es2).
Proof.
  apply reordered_mutind.
  - (* two files *)
    split; [done |]. intros _. split; [done |]. intros top after1 after2 Hafter. exact Hafter.
  - (* two links *)
    split; [done |]. intros _. split; [done |]. intros top after1 after2 Hafter. exact Hafter.
  - (* two directories *)
    intros es1 es2 _ (Hnames & Hdirs & Hfiles & Hkept).
    split; [done |]. rewrite !well_formed_Dir. intros Hwf.
    destruct (Hkept Hwf) as [Hwf2 Hchildren]. split; [done |].
    intros top after1 after2 Hafter. unfold same_output.
    rewrite !_orig_os_walk_Dir. simpl.
    rewrite (sorted_order_independent _ _ Hdirs), (sorted_order_independent _ _ Hfiles).
    f_equal. by apply descend_same.
  - (* no entries *)
    kept_cases; done.
  - (* same head *)
    intros name c1 c2 es1 es2 _ [Hdir Hc] _ (Hnames & Hdirs & Hfiles & Hkept).
    kept_cases.
    + rewrite !fmap_cons. simpl. by f_equiv.
    + rewrite !subdirectories_cons, <- Hdir. destruct (is_dir c1); [by f_equiv | done].
    + rewrite !plain_files_cons, <- Hdir. destruct (is_dir c1); [done | by f_equiv].
    + apply entries_well_formed_cons in Hwf as (Hfresh & Hwfc & Hwf).
      destruct (Hkept Hwf) as [Hwf2 _].
      apply entries_well_formed_cons. rewrite <- Hnames.
      split; [done | split; [by apply Hc | done]].
    + intros name'. apply entries_well_formed_cons in Hwf as (Hfresh & Hwfc & Hwf).
      destruct (Hkept Hwf) as [_ Hfind].
      unfold children. rewrite !fmap_cons. simpl.
      case_decide; [by apply Hc | apply Hfind].
  - (* two heads exchanged *)
    intros nx ny cx cy cx' cy' es1 es2 _ [Hdirx Hx] _ [Hdiry Hy] _
      (Hnames & Hdirs & Hfiles & Hkept).
    kept_cases.
    + rewrite !fmap_cons. simpl. rewrite Hnames. apply perm_swap.
    + rewrite !subdirectories_cons, <- Hdirx, <- Hdiry.
      destruct (is_dir cx), (is_dir cy); rewrite ?Hdirs; try done. apply perm_swap.
    + rewrite !plain_files_cons, <- Hdirx, <- Hdiry.
      destruct (is_dir cx), (is_dir cy); rewrite ?Hfiles; try done. apply perm_swap.
    + rewrite !entries_well_formed_cons in Hwf.
      destruct Hwf as (Hfreshy & Hwfy & Hfreshx & Hwfx & Hwf).
      destruct (Hkept Hwf) as [Hwf2 _].
      rewrite !entries_well_formed_cons. rewrite fmap_cons, <- Hnames. simpl.
      rewrite fmap_cons in Hfreshy. simpl in Hfreshy.
      apply not_elem_of_cons in Hfreshy as [Hne Hfreshy].
      split; [| split; [by apply Hx | split; [done | split; [by apply Hy | done]]]].
      apply not_elem_of_cons. by split.
    + intros name. rewrite !entries_well_formed_cons in Hwf.
      destruct Hwf as (Hfreshy & Hwfy & Hfreshx & Hwfx & Hwf).
      destruct (Hkept Hwf) as [_ Hfind].
      rewrite fmap_cons in Hfreshy. simpl in Hfreshy.
      apply not_elem_of_cons in Hfreshy as [Hne _].
      unfold children. rewrite !fmap_cons. simpl.
      repeat case_decide; subst; try done.
      * by apply Hy.
      * by apply Hx.
  - (* one reordering after another *)
    intros es1 es2 es3 _ (Hn12 & Hd12 & Hf12 & H12) _ (Hn23 & Hd23 & Hf23 & H23).
    kept_cases; try (by etrans).
    + destruct (H12 Hwf) as [Hwf2 _]. by apply H23.
    + intros name. destruct (H12 Hwf) as [Hwf2 Hfind12]. destruct (H23 Hwf2) as [_ Hfind23].
      eapply same_child_trans; [apply Hfind12 | apply Hfind23].
Qed.

(** Any permutation of a directory's entries is a reordering. *)
Lemma reordered_refl (n : node) : reordered n n.
Proof.
  revert n. fix IH 1. intros [| | entries].
  - apply reordered_file.
  - apply reordered_link.
  - apply reordered_dir.
    induction entries as [| [name child] es IHes].
    + apply reordered_nil.
    + apply reordered_skip; [apply IH | apply IHes].
Qed.

Lemma reordered_entries_refl (entries : list (string * node)) :
  reordered_entries entries entries.
Proof.
  induction entries as [| [name child] es IH].
  - apply reordered_nil.
  - apply reordered_skip; [apply reordered_refl | apply IH].
Qed.

Lemma Permutation_reordered (es1 es2 : list (string * node)) :
  es1 ≡ₚ es2 -> reordered (Dir es1) (Dir es2).
Proof.
  intros Hperm. apply reordered_dir.
  induction Hperm as [| [name child] es1 es2 _ IH | [nx cx] [ny cy] es | es1 es2 es3 _ IH1 _ IH2].
  - apply reordered_nil.
  - apply reordered_skip; [apply reordered_refl | apply IH].
  - apply reordered_swap; try apply reordered_refl. apply reordered_entries_refl.
  - by eapply reordered_trans.
Qed.

End Reordering.

Example walk_scenario :
  Traversal.traversal true tree_ba "." = [(".", ["a"], ["b.txt"]); ("./a", [], ["c.txt"])].
Proof. reflexivity. Qed.

(** Called bottom-up, the walk still sorts each level, but it has descended
    in disk order before the first triple is handed over. *)
Example walk_bottom_up :
  Traversal.traversal false tree_yx "." = [("./y", [], ["1"]); ("./x", [], ["2"]); (".", ["x"; "y"], [])] /\
  Traversal.traversal false tree_xy "." = [("./x", [], ["2"]); ("./y", [], ["1"]); (".", ["x"; "y"], [])].
Proof. split; reflexivity. Qed.

(** * Further properties *)

(** ** More on [normalize_mode] *)

Section ModeFurther.

(** A non-negative number with no bit at position [k] or above is below
    [2 ^ k]. *)
Lemma below_pow2 (x k : Z) :
  0 <= k -> 0 <= x -> (forall n, k <= n -> Z.testbit x n = false) -> x < 2 ^ k.
Proof.
  intros Hk Hx Hbits. destruct (decide (x = 0)) as [-> | Hnz].
  - by apply Z.pow_pos_nonneg.
  - apply Z.log2_lt_pow2; [lia |].
    destruct (decide (Z.log2 x < k)) as [Hlt | Hge]; [done |].
    assert (Z.testbit x (Z.log2 x) = true) as Htop by (apply Z.bit_log2; lia).
    rewrite Hbits in Htop by lia. discriminate.
Qed.

Lemma normalize_mode_nonneg (m : Z) : 0 <= m -> 0 <= normalize_mode m.
Proof.
  intros Hm. unfold normalize_mode.
  assert (0 <= Z.lor (Z.land m (Z.lnot o77)) o644) as Hbase.
  { apply Z.lor_nonneg. split; [apply Z.land_nonneg; by left | done]. }
  destruct (truthy _); [| done].
  apply Z.lor_nonneg. by split.
Qed.

End ModeFurther.

(** X1: the result depends on the input only through its owner-execute bit
    and the bits above the nine permission bits: the owner's read and write
    bits and all group and other bits of the input are ignored. *)
Theorem normalize_mode_ignores_rest (m m' : Z) :
  Z.testbit m owner_x = Z.testbit m' owner_x ->
  Z.shiftr m 9 = Z.shiftr m' 9 ->
  normalize_mode m = normalize_mode m'.
Proof.
  intros Hx Hhigh. apply Z.bits_inj'. intros n Hn.
  rewrite !normalize_mode_testbit by done. unfold owner_x in Hx. rewrite Hx.
  case_decide as H9; [| done].
  replace n with ((n - 9) + 9) by lia.
  rewrite <- !Z.shiftr_spec by lia. by rewrite Hhigh.
Qed.

Lemma normalize_mode_ignores_rest_witness :
  normalize_mode 33184 = normalize_mode 33152.
Proof. apply normalize_mode_ignores_rest; reflexivity. Defined.

(** X2: in closed form, [normalize_mode m] is [m] with its nine permission
    bits replaced by [0o755] when [m & 0o100] is non-zero and by [0o644]
    otherwise. *)
Theorem normalize_mode_closed_form (m : Z) :
  normalize_mode m =
    Z.lor (Z.land m (Z.lnot o777)) (if truthy (Z.land m o100) then o755 else o644).
Proof.
  rewrite truthy_bit. unfold owner_x.
  apply Z.bits_inj'. intros n Hn.
  rewrite normalize_mode_testbit, Z.lor_spec, Z.land_spec, Z.lnot_spec by done.
  case_decide as H9.
  - rewrite (small_high_bit o777 n) by (unfold o777; lia).
    assert (Z.testbit (if Z.testbit m 6 then o755 else o644) n = false) as ->.
    { destruct (Z.testbit m 6); apply small_high_bit; unfold o755, o644; lia. }
    simpl. by rewrite andb_true_r, orb_false_r.
  - assert (n = 0 \/ n = 1 \/ n = 2 \/ n = 3 \/ n = 4 \/ n = 5 \/ n = 6 \/ n = 7 \/ n = 8)
      as Hcases by lia.
    destruct (Z.testbit m 6) eqn:H6;
      destruct Hcases as [-> | [-> | [-> | [-> | [-> | [-> | [-> | [-> | ->]]]]]]]];
      rewrite ?H6;
      match goal with |- _ = ?a && negb ?c || ?d => change c with true; change d with true || change d with false end;
      simpl; by rewrite ?andb_false_r.
Qed.

(** X3: a mode that fits in [k] bits, [k] at least nine, is mapped to one
    that fits in [k] bits; in particular a 16-bit mode stays a 16-bit
    mode. *)
Theorem normalize_mode_range (m k : Z) :
  9 <= k -> 0 <= m < 2 ^ k -> 0 <= normalize_mode m < 2 ^ k.
Proof.
  intros Hk [Hlo Hhi]. split; [by apply normalize_mode_nonneg |].
  apply below_pow2; [lia | by apply normalize_mode_nonneg |].
  intros n Hn. rewrite normalize_mode_testbit by lia.
  rewrite decide_True by lia. by apply (high_bit_clear m k).
Qed.

Lemma normalize_mode_range_witness : 0 <= normalize_mode o100755 < 2 ^ 16.
Proof. apply normalize_mode_range; [lia | unfold o100755; lia]. Defined.

(** ** More on the stat wrapper *)

Section StatFurther.

Import Stat.

Lemma st_mode_of_attribute (self : StatResult644) (m : Z) :
  attributes (_original self) !! "st_mode" = Some (Int m) ->
  st_mode self = Ok (Atom (Int (normalize_mode m))).
Proof. intros Hm. unfold st_mode, getattr. by rewrite Hm. Qed.

Lemma st_mode_missing (self : StatResult644) :
  attributes (_original self) !! "st_mode" = None -> st_mode self = Raise AttributeError.
Proof. intros Hm. unfold st_mode, getattr. by rewrite Hm. Qed.

(** An index inside the tuple, counted from either end. *)
Lemma getitem_inside (st : stat_result) (n : Z) (i : nat) (a : atom) :
  items st !! i = Some a ->
  n = Z.of_nat i \/ n = Z.of_nat i - Z.of_nat (length (items st)) ->
  getitem st n = Ok (Atom a).
Proof.
  intros Hi Hn. pose proof (lookup_lt_Some _ _ _ Hi) as Hlt. unfold getitem.
  assert ((if n <? 0 then n + Z.of_nat (length (items st)) else n) = Z.of_nat i) as ->.
  { destruct Hn as [-> | ->].
    - by rewrite (proj2 (Z.ltb_ge _ _)) by lia.
    - rewrite (proj2 (Z.ltb_lt _ _)) by lia. lia. }
  rewrite (proj2 (Z.leb_le _ _)), (proj2 (Z.ltb_lt _ _)) by lia.
  simpl. by rewrite Nat2Z.id, Hi.
Qed.

Lemma getitem_outside (st : stat_result) (n : Z) :
  Z.of_nat (length (items st)) <= n \/ n < - Z.of_nat (length (items st)) ->
  getitem st n = Raise IndexError.
Proof.
  intros Hn. unfold getitem. destruct Hn as [Hn | Hn].
  - rewrite (proj2 (Z.ltb_ge n 0)) by lia.
    rewrite (proj2 (Z.ltb_ge n _)) by lia. by rewrite andb_false_r.
  - rewrite (proj2 (Z.ltb_lt n 0)) by lia.
    by rewrite (proj2 (Z.leb_gt 0 _)) by lia.
Qed.

End StatFurther.

(** X4: [st_mode] read by name and read by index [stat.ST_MODE] give the
    same answer, [normalize_mode] of the wrapped record's [st_mode]
    attribute; the first item of the wrapped tuple is not consulted. *)
Theorem StatResult644_mode_views
    (class_namespace : gmap string Stat.value) (original : Stat.stat_result) (m : Z) :
  let self := {| Stat._original := original |} in
  Stat.attributes original !! "st_mode" = Some (Stat.Int m) ->
  Stat.attribute class_namespace self "st_mode" = Ok (Stat.Atom (Stat.Int (normalize_mode m))) /\
  Stat.__getitem__ self Stat.ST_MODE = Ok (Stat.Atom (Stat.Int (normalize_mode m))).
Proof.
  intros self Hm. split.
  - unfold Stat.attribute. rewrite decide_True by done. by apply st_mode_of_attribute.
  - unfold Stat.__getitem__. simpl. by apply st_mode_of_attribute.
Qed.

Lemma StatResult644_mode_views_witness :
  Stat.attribute ∅ {| Stat._original := skewed_stat |} "st_mode" = Ok (Stat.Atom (Stat.Int o100755)) /\
  Stat.__getitem__ {| Stat._original := skewed_stat |} Stat.ST_MODE = Ok (Stat.Atom (Stat.Int o100755)).
Proof. by apply (StatResult644_mode_views ∅ skewed_stat 33216). Defined.

(** X5: when the wrapped record has no [st_mode] attribute, reading the
    mode raises [AttributeError] by name and also by index, whatever the
    wrapped tuple holds at index 0. *)
Theorem StatResult644_mode_missing
    (class_namespace : gmap string Stat.value) (original : Stat.stat_result) :
  let self := {| Stat._original := original |} in
  Stat.attributes original !! "st_mode" = None ->
  Stat.attribute class_namespace self "st_mode" = Raise AttributeError /\
  Stat.__getitem__ self Stat.ST_MODE = Raise AttributeError.
Proof.
  intros self Hm. split.
  - unfold Stat.attribute. rewrite decide_True by done. by apply st_mode_missing.
  - unfold Stat.__getitem__. simpl. by apply st_mode_missing.
Qed.

Lemma StatResult644_mode_missing_witness :
  Stat.getitem bare_tuple Stat.ST_MODE = Ok (Stat.Atom (Stat.Int o100644)) /\
  Stat.__getitem__ {| Stat._original := bare_tuple |} Stat.ST_MODE = Raise AttributeError.
Proof.
  split; [reflexivity |].
  by apply (StatResult644_mode_missing ∅ bare_tuple).
Defined.

(** X6: each of the substitutes for [os.lstat] and [os.stat] passes an
    exception of the original on unchanged, whatever is asked of the
    result; when the original returns a record with mode [m], the result
    reports [normalize_mode m] as mode and 0 as owner and group, each of
    them both by attribute and by index. *)
Theorem os_stat_normalizes
    (class_namespace : gmap string Stat.value)
    (original : string -> result Stat.stat_result)
    (substitute : string -> result Stat.StatResult644) (path : string) :
  substitute = Stat.os_lstat original \/ substitute = Stat.os_stat original ->
  (forall e (access : Stat.StatResult644 -> result Stat.value),
     original path = Raise e -> (substitute path ≫= access) = Raise e) /\
  (forall st m,
     original path = Ok st -> Stat.attributes st !! "st_mode" = Some (Stat.Int m) ->
     (self ← substitute path; Stat.attribute class_namespace self "st_mode")
       = Ok (Stat.Atom (Stat.Int (normalize_mode m))) /\
     (self ← substitute path; Stat.__getitem__ self Stat.ST_MODE)
       = Ok (Stat.Atom (Stat.Int (normalize_mode m))) /\
     (self ← substitute path; Stat.attribute class_namespace self "st_uid") = Ok Stat.zero /\
     (self ← substitute path; Stat.attribute class_namespace self "st_gid") = Ok Stat.zero /\
     (self ← substitute path; Stat.__getitem__ self Stat.ST_UID) = Ok Stat.zero /\
     (self ← substitute path; Stat.__getitem__ self Stat.ST_GID) = Ok Stat.zero).
Proof.
  intros Hsubstitute.
  assert (substitute path = st ← original path; Ok {| Stat._original := st |}) as ->.
  { by destruct Hsubstitute as [-> | ->]. }
  split.
  - intros e access Hraise. by rewrite Hraise.
  - intros st m Hok Hm. rewrite Hok. simpl.
    repeat split; try reflexivity.
    + unfold Stat.attribute. rewrite decide_True by done. by apply st_mode_of_attribute.
    + unfold Stat.__getitem__. simpl. by apply st_mode_of_attribute.
Qed.

Lemma os_stat_normalizes_witness :
  (self ← Stat.os_lstat (fun _ => Ok sample_stat) "setup.py"; Stat.attribute ∅ self "st_mode")
    = Ok (Stat.Atom (Stat.Int o100644)) /\
  (Stat.os_stat (fun _ => Raise (OSError 2)) "setup.py" ≫= fun self => Stat.attribute ∅ self "st_uid")
    = Raise (OSError 2).
Proof.
  split.
  - destruct (os_stat_normalizes ∅ (fun _ => Ok sample_stat)
                (Stat.os_lstat (fun _ => Ok sample_stat)) "setup.py") as [_ Hok]; [by left |].
    by destruct (Hok sample_stat o100644 eq_refl eq_refl) as [Hmode _].
  - destruct (os_stat_normalizes ∅ (fun _ => Raise (OSError 2))
                (Stat.os_stat (fun _ => Raise (OSError 2))) "setup.py") as [Hraise _]; [by right |].
    by apply Hraise.
Defined.

(** X7: a negative index is never one of the three constants, so counting
    from the end reaches the wrapped tuple: on a ten-item record the
    indices -10, -6 and -5 return the original mode, owner and group, not
    the normalized ones. *)
Theorem StatResult644_negative_index
    (original : Stat.stat_result) (mode uid gid : Stat.atom) :
  let self := {| Stat._original := original |} in
  length (Stat.items original) = 10%nat ->
  Stat.items original !! 0%nat = Some mode ->
  Stat.items original !! 4%nat = Some uid ->
  Stat.items original !! 5%nat = Some gid ->
  Stat.__getitem__ self (-10) = Ok (Stat.Atom mode) /\
  Stat.__getitem__ self (-6) = Ok (Stat.Atom uid) /\
  Stat.__getitem__ self (-5) = Ok (Stat.Atom gid).
Proof.
  intros self Hlen Hmode Huid Hgid.
  repeat split; (etrans; [apply getitem_fallthrough; discriminate |]);
    eapply getitem_inside; try eassumption; right; simpl; rewrite Hlen; reflexivity.
Qed.

Lemma StatResult644_negative_index_witness :
  Stat.__getitem__ {| Stat._original := sample_stat |} (-6) = Ok (Stat.Atom (Stat.Int 1000)).
Proof.
  by destruct (StatResult644_negative_index sample_stat _ _ _ eq_refl eq_refl eq_refl eq_refl)
    as (_ & Huid & _).
Defined.

(** X8: an index outside the wrapped tuple, from either end, raises
    [IndexError] as on the tuple itself, unless it is one of the three
    normalized indices. *)
Theorem StatResult644_index_out_of_range (original : Stat.stat_result) (n : Z) :
  let self := {| Stat._original := original |} in
  let len := Z.of_nat (length (Stat.items original)) in
  len <= n \/ n < - len ->
  n <> Stat.ST_MODE -> n <> Stat.ST_UID -> n <> Stat.ST_GID ->
  Stat.__getitem__ self n = Raise IndexError.
Proof.
  intros self len Hout Hm Hu Hg.
  rewrite getitem_fallthrough by done. by apply getitem_outside.
Qed.

Lemma StatResult644_index_out_of_range_witness :
  Stat.__getitem__ {| Stat._original := sample_stat |} 10 = Raise IndexError /\
  Stat.__getitem__ {| Stat._original := sample_stat |} (-11) = Raise IndexError.
Proof.
  split; apply StatResult644_index_out_of_range; simpl; try discriminate; lia.
Defined.

(** ** More on the sorted walk *)

Section WalkShape.

Import Traversal Walks.

Lemma sorted_sorted (names : list string) : sorted (sorted names) = sorted names.
Proof. apply sorted_order_independent, sorted_Permutation. Qed.

Lemma consume_with_id (g : generator) : consume_with id g = consume g.
Proof.
  induction g as [| dirpath dirnames filenames resume IH]; [done |].
  simpl. by rewrite IH.
Qed.

(** Induction on a tree, with the hypothesis for every entry of a
    directory. *)
Lemma node_nested_ind (P : node -> Prop) :
  P File -> P DirLink ->
  (forall entries, Forall (fun e => P e.2) entries -> P (Dir entries)) ->
  forall n, P n.
Proof.
  intros Hfile Hlink Hdir. fix IH 1. intros [| | entries].
  - exact Hfile.
  - exact Hlink.
  - apply Hdir. induction entries as [| [name child] es IHes].
    + constructor.
    + constructor; [apply IH | apply IHes].
Qed.

Lemma find_elem {A} (name : string) (entries : list (string * A)) (a : A) :
  find name entries = Some a -> (name, a) ∈ entries.
Proof.
  induction entries as [| [n a'] es IH]; [done |].
  simpl. case_decide as Hn.
  - intros [= ->]. subst. left.
  - intros Hfind. right. by apply IH.
Qed.

Lemma find_in_children (topdown : bool) (entries : list (string * node)) (name : string) :
  find name (children topdown entries) = _orig_os_walk topdown <$> find name entries.
Proof.
  induction entries as [| [n child] es IH]; [done |].
  simpl. by case_decide.
Qed.

Lemma visit_ext (entries : list (string * node)) (sub1 sub2 : node -> string -> list triple)
    (top : string) (names : list string) :
  Forall (fun e => forall top, sub1 e.2 top = sub2 e.2 top) entries ->
  visit entries sub1 top names = visit entries sub2 top names.
Proof.
  intros Hsame. unfold visit. induction names as [| name names IH]; [done |].
  simpl. rewrite IH. f_equal.
  destruct (find name entries) as [child |] eqn:Hfind; [| done].
  apply find_elem in Hfind. rewrite Forall_forall in Hsame.
  apply (Hsame _ Hfind).
Qed.

Variable edit : list string -> list string.

Lemma descend_visit (topdown : bool) (entries : list (string * node)) top names after :
  Forall (fun e => splits edit topdown e.2) entries ->
  consume_with edit (os_walk (descend (children topdown entries) top names after)) =
    visit entries (traversal_with edit topdown) top names ++ consume_with edit (os_walk after).
Proof.
  intros Hsplits. induction names as [| name names IH]; [done |].
  simpl. rewrite find_in_children.
  destruct (find name entries) as [child |] eqn:Hfind; simpl; [| exact IH].
  apply find_elem in Hfind. rewrite Forall_forall in Hsplits.
  rewrite (Hsplits _ Hfind). simpl. by rewrite IH, app_assoc.
Qed.

Lemma walk_splits (topdown : bool) (n : node) : splits edit topdown n.
Proof.
  induction n as [| | entries IH] using node_nested_ind; try (by intros top after).
  intros top after. unfold traversal_with. rewrite !_orig_os_walk_Dir.
  destruct topdown; simpl.
  - rewrite !descend_visit by done. simpl. by rewrite app_nil_r.
  - rewrite !descend_visit by done. simpl. by rewrite <- app_assoc.
Qed.

Lemma traversal_with_Dir (topdown : bool) (entries : list (string * node)) (top : string) :
  traversal_with edit topdown (Dir entries) top =
    let here := (top, sorted (subdirectories entries), sorted (plain_files entries)) in
    if topdown
    then here :: visit entries (traversal_with edit topdown) top
                   (edit (sorted (subdirectories entries)))
    else visit entries (traversal_with edit topdown) top (subdirectories entries) ++ [here].
Proof.
  assert (Forall (fun e => splits edit topdown e.2) entries) as Hsplits.
  { apply Forall_forall. intros e _. apply walk_splits. }
  unfold traversal_with at 1. rewrite _orig_os_walk_Dir.
  destruct topdown; simpl; rewrite descend_visit by done; simpl.
  - by rewrite app_nil_r.
  - done.
Qed.

End WalkShape.

(** The passive top-down walk of a directory, one level unfolded. *)
Lemma traversal_top_down (entries : list (string * Traversal.node)) (top : string) :
  Traversal.traversal true (Traversal.Dir entries) top =
    (top, Traversal.sorted (Traversal.subdirectories entries),
     Traversal.sorted (Traversal.plain_files entries))
    :: Walks.visit entries (Traversal.traversal true) top
         (Traversal.sorted (Traversal.subdirectories entries)).
Proof.
  unfold Traversal.traversal. rewrite <- consume_with_id.
  change (Walks.consume_with id _) with (Walks.traversal_with id true (Traversal.Dir entries) top).
  rewrite (traversal_with_Dir id true). simpl. f_equal.
  apply visit_ext, Forall_forall. intros e _ top'.
  unfold Walks.traversal_with, Traversal.traversal. apply consume_with_id.
Qed.

(** C2, as worded, fails when the walk is asked to go bottom-up, which
    [os_walk] passes on to [os.walk] with its other arguments: every level
    is still sorted, but the subdirectories have been walked in disk order
    before the consumer sees the first triple, so two orders of the same
    entries give two traversals. *)
Lemma os_walk_bottom_up_depends_on_disk_order :
  Traversal.well_formed tree_yx /\
  Traversal.reordered tree_yx tree_xy /\
  Traversal.traversal false tree_yx "." <> Traversal.traversal false tree_xy ".".
Proof.
  split; [| split].
  - simpl. repeat split; by apply (bool_decide_unpack _).
  - apply Permutation_reordered, perm_swap.
  - discriminate.
Qed.

(** C2 (amended): the substituted [listdir] returns the names of a
    directory in ascending order, the same list for any two orders in which
    the file system may hold them. The substituted [walk] hands on every
    triple of the walk beneath with its path unchanged and both lists
    sorted, and lets the walk beneath go on from the sorted lists. Walked
    top-down, as [os.walk(top)] is by default, a directory comes first with
    its names in ascending order, its subdirectories follow in ascending
    order, and two trees that differ only in the order of their
    directories' entries give the same sequence of triples. *)
Theorem sorted_traversal
    (listdir1 listdir2 : string -> result (list string)) (path : string)
    (names1 names2 : list string) (underlying : Traversal.generator)
    (root1 root2 : Traversal.node) (top : string) :
  listdir1 path = Ok names1 ->
  listdir2 path = Ok names2 ->
  names1 ≡ₚ names2 ->
  Traversal.well_formed root1 ->
  Traversal.reordered root1 root2 ->
  (exists names, Traversal.os_listdir listdir1 path = Ok names /\
     Sorted String.le names /\ names ≡ₚ names1) /\
  Traversal.os_listdir listdir1 path = Traversal.os_listdir listdir2 path /\
  Forall Traversal.level_sorted (Traversal.consume (Traversal.os_walk underlying)) /\
  match underlying with
  | Traversal.Stop => Traversal.consume (Traversal.os_walk underlying) = []
  | Traversal.Yield dirpath dirnames filenames resume =>
      Traversal.consume (Traversal.os_walk underlying) =
        (dirpath, Traversal.sorted dirnames, Traversal.sorted filenames)
        :: Traversal.consume
             (Traversal.os_walk
                (resume (Traversal.sorted dirnames) (Traversal.sorted filenames)))
  end /\
  Traversal.traversal true root1 top = Traversal.traversal true root2 top /\
  (forall entries,
     root1 = Traversal.Dir entries ->
     Traversal.traversal true root1 top =
       (top, Traversal.sorted (Traversal.subdirectories entries),
        Traversal.sorted (Traversal.plain_files entries))
       :: Walks.visit entries (Traversal.traversal true) top
            (Traversal.sorted (Traversal.subdirectories entries))).
Proof.
  intros Hlist1 Hlist2 Hperm Hwf Hreordered.
  unfold Traversal.os_listdir. rewrite Hlist1, Hlist2. simpl.
  split; [| split; [| split; [| split; [| split]]]].
  - eexists. split; [reflexivity |]. split; [apply sorted_Sorted | apply sorted_Permutation].
  - f_equal. by apply sorted_order_independent.
  - apply os_walk_level_sorted.
  - by destruct underlying.
  - destruct reordered_kept as [Hnode _].
    destruct (Hnode _ _ Hreordered) as [_ Hkept].
    destruct (Hkept Hwf) as [_ Hsame]. by apply Hsame.
  - intros entries ->. apply traversal_top_down.
Qed.

Lemma sorted_traversal_witness :
  Traversal.os_listdir listdir_ba "." = Traversal.os_listdir listdir_ab "." /\
  Traversal.traversal true tree_ba "." = Traversal.traversal true tree_ab "." /\
  Traversal.traversal true tree_ba "." = [(".", ["a"], ["b.txt"]); ("./a", [], ["c.txt"])].
Proof.
  destruct (sorted_traversal listdir_ba listdir_ab "." ["b.txt"; "a"] ["a"; "b.txt"]
              Traversal.Stop tree_ba tree_ab ".") as (_ & Hlist & _ & _ & Hwalk & Hshape).
  - reflexivity.
  - reflexivity.
  - apply perm_swap.
  - simpl. repeat split; by apply (bool_decide_unpack _).
  - apply Permutation_reordered, perm_swap.
  - split; [exact Hlist | split; [exact Hwalk |]].
    etrans; [by apply Hshape | reflexivity].
Defined.

(** X9: substituting twice is substituting once: [os_listdir] over
    [os_listdir] returns what [os_listdir] returns, and [os_walk] over
    [os_walk] hands every consumer the triples that [os_walk] does. *)
Theorem substitutes_idempotent
    (_orig_os_listdir : string -> result (list string)) (path : string)
    (edit : list string -> list string) (underlying : Traversal.generator) :
  Traversal.os_listdir (Traversal.os_listdir _orig_os_listdir) path
    = Traversal.os_listdir _orig_os_listdir path /\
  Walks.consume_with edit (Traversal.os_walk (Traversal.os_walk underlying))
    = Walks.consume_with edit (Traversal.os_walk underlying).
Proof.
  split.
  - unfold Traversal.os_listdir. destruct (_orig_os_listdir path) as [names | e]; [| done].
    simpl. by rewrite sorted_sorted.
  - induction underlying as [| dirpath dirnames filenames resume IH]; [done |].
    simpl. by rewrite !sorted_sorted, IH.
Qed.



(** X11: bottom-up, the walk over a directory first walks its
    subdirectories in the order the file system lists them, not in sorted
    order, and yields the directory last, with both lists sorted. *)
Theorem walk_bottom_up_order (entries : list (string * Traversal.node)) (top : string) :
  Traversal.traversal false (Traversal.Dir entries) top =
    Walks.visit entries (Traversal.traversal false) top (Traversal.subdirectories entries)
      ++ [(top, Traversal.sorted (Traversal.subdirectories entries),
           Traversal.sorted (Traversal.plain_files entries))].
Proof.
  unfold Traversal.traversal. rewrite <- consume_with_id.
  change (Walks.consume_with id _) with (Walks.traversal_with id false (Traversal.Dir entries) top).
  rewrite (traversal_with_Dir id false). simpl. f_equal.
  apply visit_ext, Forall_forall. intros e _ top'.
  unfold Walks.traversal_with, Traversal.traversal. apply consume_with_id.
Qed.



(** ** More on the [monkeypatch] scope *)

Section ScopeFurther.

Import Runtime.

(** The scope around a Python function, attribute present: the body runs
    with the replacement in place; afterwards the original is back and the
    function carries [original = None]; the outcome is the body's. *)
Lemma monkeypatch_function (m f : positive) name (body : block) (w : world) orig_func :
  getattr w (Module m) name = Ok orig_func ->
  monkeypatch (Module m) name (Ref (Function f)) body w =
    let w0 := with_attrs w (<[(Module m, name) := Ref (Function f)]> (attrs w)) in
    (with_attrs (body w0).1
       (<[(Function f, "original") := None_]>
          (<[(Module m, name) := orig_func]> (attrs (body w0).1))),
     (body w0).2).
Proof.
  intros Horig. rewrite (monkeypatch_present _ _ _ _ _ _ Horig). simpl.
  by destruct (body _) as [w1 outcome].
Qed.

Lemma getattr_present (w : world) o name v :
  attrs w !! (o, name) = Some v -> getattr w o name = Ok v.
Proof. intros H. unfold getattr. by rewrite H. Qed.

Lemma getattr_missing (w : world) o name :
  attrs w !! (o, name) = None -> getattr w o name = Raise AttributeError.
Proof. intros H. unfold getattr. by rewrite H. Qed.

(** Two scopes on one module, as in [with monkeypatch(..), monkeypatch(..)]. *)
Lemma nested_scopes (m f1 f2 : positive) (name1 name2 : string) (body : block) (w : world)
    (orig1 orig2 : value) :
  name1 <> name2 ->
  attrs w !! (Module m, name1) = Some orig1 ->
  attrs w !! (Module m, name2) = Some orig2 ->
  let inside :=
    with_attrs w (<[(Module m, name2) := Ref (Function f2)]>
                    (<[(Module m, name1) := Ref (Function f1)]> (attrs w))) in
  let after :=
    monkeypatch (Module m) name1 (Ref (Function f1))
      (monkeypatch (Module m) name2 (Ref (Function f2)) body) w in
  after.2 = (body inside).2 /\
  attrs after.1 =
    <[(Function f1, "original") := None_]>
      (<[(Module m, name1) := orig1]>
         (<[(Function f2, "original") := None_]>
            (<[(Module m, name2) := orig2]> (attrs (body inside).1)))) /\
  sys_modules after.1 = sys_modules (body inside).1 /\
  opened after.1 = opened (body inside).1 /\
  next_module after.1 = next_module (body inside).1.
Proof.
  intros Hne H1 H2 inside after. unfold after.
  rewrite (monkeypatch_function _ _ _ _ _ orig1) by by apply getattr_present.
  cbv zeta.
  rewrite (monkeypatch_function _ _ _ _ _ orig2).
  2: { apply getattr_present. simpl. rewrite lookup_insert_ne by congruence. done. }
  by repeat split.
Qed.

End ScopeFurther.

(** X14: when the module has no attribute of that name, entering the scope
    raises [AttributeError]: the wrapped operation is not run and the state
    of the interpreter is untouched. *)
Theorem monkeypatch_missing_attribute
    (o : Runtime.object) (name : string) (func : Runtime.value)
    (body : Runtime.block) (w : Runtime.world) :
  Runtime.attrs w !! (o, name) = None ->
  Runtime.monkeypatch o name func body w = (w, Raise AttributeError).
Proof.
  intros Hmissing. apply monkeypatch_absent. by apply getattr_missing.
Qed.

Lemma monkeypatch_missing_attribute_witness :
  Runtime.monkeypatch Builders.os "walk" Builders.os_walk succeeding world0
    = (world0, Raise AttributeError).
Proof. by apply monkeypatch_missing_attribute. Defined.

(** X15: apart from the patched attribute and the replacement's own
    [original], the scope adds nothing to what the wrapped operation did:
    every other attribute, [sys.modules] and the rest of the state are as
    the operation left them. *)
Theorem monkeypatch_frame
    (m f : positive) (name : string) (body : Runtime.block) (w : Runtime.world)
    (orig_func : Runtime.value) (key : Runtime.object * string) :
  let inside :=
    Runtime.with_attrs w
      (<[(Runtime.Module m, name) := Runtime.Ref (Runtime.Function f)]> (Runtime.attrs w)) in
  let after :=
    (Runtime.monkeypatch (Runtime.Module m) name (Runtime.Ref (Runtime.Function f)) body w).1 in
  Runtime.attrs w !! (Runtime.Module m, name) = Some orig_func ->
  key <> (Runtime.Module m, name) ->
  key <> (Runtime.Function f, "original") ->
  Runtime.attrs after !! key = Runtime.attrs (body inside).1 !! key /\
  Runtime.sys_modules after = Runtime.sys_modules (body inside).1 /\
  Runtime.opened after = Runtime.opened (body inside).1 /\
  Runtime.next_module after = Runtime.next_module (body inside).1.
Proof.
  intros inside after Horig Hkey Hkey'. unfold after.
  rewrite (monkeypatch_function _ _ _ _ _ orig_func) by by apply getattr_present.
  simpl. by rewrite !lookup_insert_ne.
Qed.

Lemma monkeypatch_frame_witness :
  Runtime.attrs
    (Runtime.monkeypatch Builders.os "listdir" Builders.os_listdir failing world0).1
    !! (Builders.os, "lstat") = Some (Runtime.Ref (Runtime.Builtin 2)).
Proof.
  destruct (monkeypatch_frame 1 1 "listdir" failing world0 (Runtime.Ref (Runtime.Builtin 1))
              (Builders.os, "lstat")) as [Hattr _]; try done.
Defined.

(** X16: around a Python function, the scope hands on the outcome of the
    wrapped operation as it is, value or exception; the operation runs with
    the replacement in place; and afterwards the replacement's attribute
    [original] is [None]. *)
Theorem monkeypatch_outcome
    (m f : positive) (name : string) (body : Runtime.block) (w : Runtime.world)
    (orig_func : Runtime.value) :
  let func := Runtime.Ref (Runtime.Function f) in
  let inside :=
    Runtime.with_attrs w (<[(Runtime.Module m, name) := func]> (Runtime.attrs w)) in
  let after := Runtime.monkeypatch (Runtime.Module m) name func body w in
  Runtime.attrs w !! (Runtime.Module m, name) = Some orig_func ->
  after.2 = (body inside).2 /\
  Runtime.getattr inside (Runtime.Module m) name = Ok func /\
  Runtime.getattr after.1 (Runtime.Function f) "original" = Ok Runtime.None_.
Proof.
  intros func inside after Horig. unfold after, func.
  rewrite (monkeypatch_function _ _ _ _ _ orig_func) by by apply getattr_present.
  repeat split.
  - unfold Runtime.getattr. simpl. by rewrite lookup_insert_eq.
  - unfold Runtime.getattr. simpl. by rewrite lookup_insert_eq.
Qed.

Lemma monkeypatch_outcome_witness :
  (Runtime.monkeypatch Builders.os "stat" Builders.os_stat probe_stat world1).2
    = Ok Builders.os_stat /\
  (Runtime.monkeypatch Builders.os "listdir" Builders.os_listdir failing world0).2
    = Raise (OSError 2).
Proof.
  split.
  - by destruct (monkeypatch_outcome 1 4 "stat" probe_stat world1
                   (Runtime.Ref (Runtime.Builtin 3)) eq_refl) as [Houtcome _].
  - by destruct (monkeypatch_outcome 1 1 "listdir" failing world0
                   (Runtime.Ref (Runtime.Builtin 1)) eq_refl) as [Houtcome _].
Defined.

(** X17: two scopes opened by one [with] statement on different
    attributes of a module compose: the wrapped operation runs with both
    replacements in place, its outcome is handed on, and afterwards both
    attributes hold their originals. *)
Theorem monkeypatch_nested
    (m f1 f2 : positive) (name1 name2 : string) (body : Runtime.block) (w : Runtime.world)
    (orig1 orig2 : Runtime.value) :
  let func1 := Runtime.Ref (Runtime.Function f1) in
  let func2 := Runtime.Ref (Runtime.Function f2) in
  let inside :=
    Runtime.with_attrs w
      (<[(Runtime.Module m, name2) := func2]>
         (<[(Runtime.Module m, name1) := func1]> (Runtime.attrs w))) in
  let after :=
    Runtime.monkeypatch (Runtime.Module m) name1 func1
      (Runtime.monkeypatch (Runtime.Module m) name2 func2 body) w in
  name1 <> name2 ->
  Runtime.attrs w !! (Runtime.Module m, name1) = Some orig1 ->
  Runtime.attrs w !! (Runtime.Module m, name2) = Some orig2 ->
  after.2 = (body inside).2 /\
  Runtime.getattr inside (Runtime.Module m) name1 = Ok func1 /\
  Runtime.getattr inside (Runtime.Module m) name2 = Ok func2 /\
  Runtime.getattr after.1 (Runtime.Module m) name1 = Ok orig1 /\
  Runtime.getattr after.1 (Runtime.Module m) name2 = Ok orig2.
Proof.
  intros func1 func2 inside after Hne H1 H2.
  destruct (nested_scopes m f1 f2 name1 name2 body w orig1 orig2 Hne H1 H2)
    as (Houtcome & Hattrs & _).
  split; [exact Houtcome |].
  unfold after, func1, func2, Runtime.getattr. rewrite Hattrs. simpl.
  split; [| split; [| split]].
  - by rewrite lookup_insert_ne, lookup_insert_eq by congruence.
  - by rewrite lookup_insert_eq.
  - by rewrite lookup_insert_ne, lookup_insert_eq by congruence.
  - by rewrite !lookup_insert_ne, lookup_insert_eq by congruence.
Qed.

Lemma monkeypatch_nested_witness :
  let after :=
    Runtime.monkeypatch Builders.os "walk" Builders.os_walk
      (Runtime.monkeypatch Builders.os "stat" Builders.os_stat probe_stat) world1 in
  after.2 = Ok Builders.os_stat /\
  Runtime.getattr after.1 Builders.os "stat" = Ok (Runtime.Ref (Runtime.Builtin 3)).
Proof.
  intros after.
  destruct (monkeypatch_nested 1 2 4 "walk" "stat" probe_stat world1
              (Runtime.Ref (Runtime.Function 9)) (Runtime.Ref (Runtime.Builtin 3)))
    as (Houtcome & _ & _ & _ & Hstat); try done.
Defined.

(** ** More on the builders *)

Section BuildersFurther.

Import Runtime Builders.

Variable DEFAULT_FORMAT : tar_format.
Variable tar_add : world -> result value.

(** The world [make_tarball] prepares before it opens its scopes. *)
Lemma make_tarball_prepared (w : world) :
  make_tarball DEFAULT_FORMAT tar_add w =
    let tarfile_mod := Module (next_module w) in
    let prepared :=
      {| attrs := <[(tarfile_mod, "open") := Open TarFile644]> (attrs w);
         sys_modules := <["tarfile" := tarfile_mod]> (sys_modules w);
         next_module := Pos.succ (next_module w);
         opened := opened w |} in
    let run :=
      monkeypatch os "listdir" os_listdir
        (monkeypatch os "lstat" os_lstat (distutils_make_tarball DEFAULT_FORMAT tar_add))
        prepared in
    (with_sys_modules run.1 (sys_modules w), run.2).
Proof.
  unfold make_tarball, ModuleType. simpl.
  by destruct (monkeypatch _ _ _ _ _) as [w' outcome].
Qed.

(** In the world the two scopes set up, the stock builder opens a
    [TarFile644] and then does its work. *)
Lemma distutils_make_tarball_inside (w : world) (tarfile_mod : object) :
  sys_modules w !! "tarfile" = Some tarfile_mod ->
  attrs w !! (tarfile_mod, "open") = Some (Open TarFile644) ->
  (distutils_make_tarball DEFAULT_FORMAT tar_add w).2 = tar_add w /\
  attrs (distutils_make_tarball DEFAULT_FORMAT tar_add w).1 = attrs w /\
  sys_modules (distutils_make_tarball DEFAULT_FORMAT tar_add w).1 = sys_modules w.
Proof.
  intros Hmod Hopen. unfold distutils_make_tarball, getattr. by rewrite Hmod, Hopen.
Qed.

End BuildersFurther.

(** X18: with [os.walk] and [os.stat] present, [make_zipfile] runs the
    stock zip builder with the two substitutes in place and hands on its
    outcome; afterwards both attributes hold their originals. Without
    [os.walk] it raises [AttributeError] and the stock builder is not
    run. *)
Theorem make_zipfile_scopes
    (distutils_make_zipfile : Runtime.block) (w : Runtime.world) :
  let inside :=
    Runtime.with_attrs w
      (<[(Builders.os, "stat") := Builders.os_stat]>
         (<[(Builders.os, "walk") := Builders.os_walk]> (Runtime.attrs w))) in
  let after := Builders.make_zipfile distutils_make_zipfile w in
  (forall orig_walk orig_stat,
     Runtime.attrs w !! (Builders.os, "walk") = Some orig_walk ->
     Runtime.attrs w !! (Builders.os, "stat") = Some orig_stat ->
     after.2 = (distutils_make_zipfile inside).2 /\
     Runtime.getattr inside Builders.os "walk" = Ok Builders.os_walk /\
     Runtime.getattr inside Builders.os "stat" = Ok Builders.os_stat /\
     Runtime.getattr after.1 Builders.os "walk" = Ok orig_walk /\
     Runtime.getattr after.1 Builders.os "stat" = Ok orig_stat) /\
  (Runtime.attrs w !! (Builders.os, "walk") = None ->
   after = (w, Raise AttributeError)).
Proof.
  intros inside after. split.
  - intros orig_walk orig_stat Hwalk Hstat.
    destruct (nested_scopes 1 2 4 "walk" "stat" distutils_make_zipfile w orig_walk orig_stat)
      as (Houtcome & Hattrs & _); try done.
    split; [exact Houtcome |].
    unfold after, Builders.make_zipfile, Builders.os, Builders.os_walk, Builders.os_stat,
      Runtime.getattr.
    rewrite Hattrs. simpl.
    split; [| split; [| split]].
    + by rewrite lookup_insert_ne, lookup_insert_eq by congruence.
    + by rewrite lookup_insert_eq.
    + by rewrite lookup_insert_ne, lookup_insert_eq by congruence.
    + by rewrite !lookup_insert_ne, lookup_insert_eq by congruence.
  - intros Hmissing. apply monkeypatch_absent. by apply getattr_missing.
Qed.

Lemma make_zipfile_scopes_witness :
  (Builders.make_zipfile probe_stat world1).2 = Ok Builders.os_stat /\
  Runtime.getattr (Builders.make_zipfile probe_stat world1).1 Builders.os "stat"
    = Ok (Runtime.Ref (Runtime.Builtin 3)) /\
  Builders.make_zipfile probe_stat world0 = (world0, Raise AttributeError).
Proof.
  destruct (make_zipfile_scopes probe_stat world1) as [Hrun _].
  destruct (Hrun _ _ eq_refl eq_refl) as (Houtcome & _ & _ & _ & Hstat).
  destruct (make_zipfile_scopes probe_stat world0) as [_ Hmissing].
  split; [exact Houtcome | split; [exact Hstat | by apply Hmissing]].
Defined.

(** X19: with [os.stat] present, [archive_wheelfile] runs the original
    wheel archiver with [os.stat] replaced by the substitute and hands on
    its outcome; afterwards [os.stat] is the original again, and no other
    attribute of [os] has changed beyond what the archiver did. *)
Theorem archive_wheelfile_scope
    (_orig_archive_wheelfile : Runtime.block) (w : Runtime.world)
    (orig_stat : Runtime.value) (name : string) :
  let inside :=
    Runtime.with_attrs w (<[(Builders.os, "stat") := Builders.os_stat]> (Runtime.attrs w)) in
  let after := Wheel.archive_wheelfile _orig_archive_wheelfile w in
  Runtime.attrs w !! (Builders.os, "stat") = Some orig_stat ->
  after.2 = (_orig_archive_wheelfile inside).2 /\
  Runtime.getattr inside Builders.os "stat" = Ok Builders.os_stat /\
  Runtime.getattr after.1 Builders.os "stat" = Ok orig_stat /\
  (name <> "stat" ->
   Runtime.getattr after.1 Builders.os name
     = Runtime.getattr (_orig_archive_wheelfile inside).1 Builders.os name).
Proof.
  intros inside after Hstat.
  unfold after, Wheel.archive_wheelfile, Builders.os, Builders.os_stat.
  rewrite (monkeypatch_function _ _ _ _ _ orig_stat) by by apply getattr_present.
  unfold Runtime.getattr. simpl.
  split; [done |]. split; [by rewrite lookup_insert_eq |].
  split.
  - by rewrite lookup_insert_ne, lookup_insert_eq by congruence.
  - intros Hname. by rewrite !lookup_insert_ne by congruence.
Qed.

Lemma archive_wheelfile_scope_witness :
  (Wheel.archive_wheelfile probe_stat world1).2 = Ok Builders.os_stat /\
  Runtime.getattr (Wheel.archive_wheelfile probe_stat world1).1 Builders.os "stat"
    = Ok (Runtime.Ref (Runtime.Builtin 3)).
Proof.
  destruct (archive_wheelfile_scope probe_stat world1 (Runtime.Ref (Runtime.Builtin 3)) "walk"
              eq_refl) as (Houtcome & _ & Hstat & _).
  by split.
Defined.

(** X20: with [os.listdir] and [os.lstat] present, the outcome of
    [make_tarball] is that of the stock builder's work, done in a world
    where the two are the substitutes and [sys.modules["tarfile"]] is the
    module made for the call; afterwards [os.listdir] and [os.lstat] hold
    their originals. *)
Theorem make_tarball_runs_stock
    (DEFAULT_FORMAT : Runtime.tar_format) (tar_add : Runtime.world -> result Runtime.value)
    (w : Runtime.world) (orig_listdir orig_lstat : Runtime.value) :
  let tarfile_mod := Runtime.Module (Runtime.next_module w) in
  let inside :=
    {| Runtime.attrs :=
         <[(Builders.os, "lstat") := Builders.os_lstat]>
           (<[(Builders.os, "listdir") := Builders.os_listdir]>
              (<[(tarfile_mod, "open") := Runtime.Open Runtime.TarFile644]> (Runtime.attrs w)));
       Runtime.sys_modules := <["tarfile" := tarfile_mod]> (Runtime.sys_modules w);
       Runtime.next_module := Pos.succ (Runtime.next_module w);
       Runtime.opened := Runtime.opened w |} in
  let after := Builders.make_tarball DEFAULT_FORMAT tar_add w in
  Runtime.attrs w !! (Builders.os, "listdir") = Some orig_listdir ->
  Runtime.attrs w !! (Builders.os, "lstat") = Some orig_lstat ->
  after.2 = tar_add inside /\
  Runtime.getattr after.1 Builders.os "listdir" = Ok orig_listdir /\
  Runtime.getattr after.1 Builders.os "lstat" = Ok orig_lstat.
Proof.
  intros tarfile_mod inside after Hlistdir Hlstat. unfold after.
  rewrite make_tarball_prepared. cbv zeta.
  match goal with
  | |- context [Runtime.monkeypatch _ _ _ _ ?p] => set (prepared := p)
  end.
  destruct (nested_scopes 1 1 3 "listdir" "lstat"
              (Builders.distutils_make_tarball DEFAULT_FORMAT tar_add) prepared
              orig_listdir orig_lstat) as (Houtcome & Hattrs & _); try done.
  { simpl. by rewrite lookup_insert_ne by congruence. }
  { simpl. by rewrite lookup_insert_ne by congruence. }
  destruct (distutils_make_tarball_inside DEFAULT_FORMAT tar_add inside tarfile_mod)
    as (Hstock & Hstock_attrs & _).
  { simpl. apply lookup_insert_eq. }
  { simpl. rewrite !lookup_insert_ne by congruence. apply lookup_insert_eq. }
  change (Runtime.with_attrs prepared _) with inside in Houtcome, Hattrs.
  unfold Builders.os, Builders.os_listdir, Builders.os_lstat, Runtime.getattr. simpl.
  rewrite Houtcome, Hattrs, Hstock.
  split; [done |]. split.
  - by rewrite lookup_insert_ne, lookup_insert_eq by congruence.
  - by rewrite !lookup_insert_ne, lookup_insert_eq by congruence.
Qed.

Lemma make_tarball_runs_stock_witness :
  let after :=
    Builders.make_tarball Runtime.PAX_FORMAT
      (fun w => Runtime.getattr w Builders.os "lstat") world0 in
  after.2 = Ok Builders.os_lstat /\
  Runtime.getattr after.1 Builders.os "lstat" = Ok (Runtime.Ref (Runtime.Builtin 2)).
Proof.
  intros after.
  destruct (make_tarball_runs_stock Runtime.PAX_FORMAT
              (fun w => Runtime.getattr w Builders.os "lstat") world0
              (Runtime.Ref (Runtime.Builtin 1)) (Runtime.Ref (Runtime.Builtin 2))
              eq_refl eq_refl) as (Houtcome & _ & Hlstat).
  split; [| exact Hlstat]. etrans; [exact Houtcome | reflexivity].
Defined.

(** X21: when [os] lacks [listdir] or [lstat], [make_tarball] raises
    [AttributeError] without opening any tar writer, and [sys.modules] is
    still put back as it was. *)
Theorem make_tarball_missing_primitive
    (DEFAULT_FORMAT : Runtime.tar_format) (tar_add : Runtime.world -> result Runtime.value)
    (w : Runtime.world) :
  let after := Builders.make_tarball DEFAULT_FORMAT tar_add w in
  Runtime.attrs w !! (Builders.os, "listdir") = None \/
  Runtime.attrs w !! (Builders.os, "lstat") = None ->
  after.2 = Raise AttributeError /\
  Runtime.opened after.1 = Runtime.opened w /\
  Runtime.sys_modules after.1 = Runtime.sys_modules w.
Proof.
  intros after Hmissing. unfold after.
  rewrite make_tarball_prepared. cbv zeta.
  match goal with
  | |- context [Runtime.monkeypatch _ _ _ _ ?p] => set (prepared := p)
  end.
  destruct (Runtime.attrs w !! (Builders.os, "listdir")) as [orig_listdir |] eqn:Hlistdir.
  - destruct Hmissing as [? | Hlstat]; [done |].
    unfold Builders.os, Builders.os_listdir.
    rewrite (monkeypatch_function _ _ _ _ _ orig_listdir).
    2: { apply getattr_present. simpl. by rewrite lookup_insert_ne by congruence. }
    cbv zeta. rewrite (monkeypatch_absent _ _ _ _ _ AttributeError); [done |].
    apply getattr_missing. simpl. by rewrite !lookup_insert_ne by congruence.
  - rewrite (monkeypatch_absent _ _ _ _ _ AttributeError); [done |].
    apply getattr_missing. simpl. by rewrite lookup_insert_ne by congruence.
Qed.

Lemma make_tarball_missing_primitive_witness :
  (Builders.make_tarball Runtime.GNU_FORMAT (fun _ => Ok Runtime.None_)
     (Runtime.with_attrs world0 ∅)).2 = Raise AttributeError.
Proof.
  by destruct (make_tarball_missing_primitive Runtime.GNU_FORMAT (fun _ => Ok Runtime.None_)
                 (Runtime.with_attrs world0 ∅)) as [Houtcome _]; [left |].
Defined.

(** ** More on the zip fix-up *)

Section ZipFurther.

Import Zip.

Lemma normalize_mode_twice (m : Z) : normalize_mode (normalize_mode m) = normalize_mode m.
Proof.
  apply Z.bits_inj'. intros n Hn.
  rewrite (normalize_mode_testbit (normalize_mode m)) by done.
  rewrite (normalize_mode_testbit m 6) by lia.
  rewrite (normalize_mode_testbit m n) by done.
  repeat case_decide; try reflexivity; lia.
Qed.

Lemma normalize_mode_below (m k : Z) :
  9 <= k -> 0 <= m < 2 ^ k -> 0 <= normalize_mode m < 2 ^ k.
Proof.
  intros Hk [Hlo Hhi]. split; [by apply normalize_mode_nonneg |].
  apply below_pow2; [lia | by apply normalize_mode_nonneg |].
  intros n Hn. rewrite normalize_mode_testbit by lia.
  rewrite decide_True by lia. by apply (high_bit_clear m k).
Qed.

(** The two possible patches, as functions of the attribute word. *)
Lemma patch_after_patch (attr mode mode' : Z) :
  Z.lor (Z.land (Z.lor (Z.land attr xFFFF) (Z.shiftl mode 16)) xFFFF) (Z.shiftl mode' 16)
    = Z.lor (Z.land attr xFFFF) (Z.shiftl mode' 16).
Proof. by rewrite patched_low. Qed.

(** An archive either has no entry or ends with one. *)
Lemma filelist_cases (zipfile : ZipFile) :
  zipfile = {| filelist := [] |} \/
  exists entries zipinfo, zipfile = {| filelist := entries ++ [zipinfo] |}.
Proof.
  destruct zipfile as [l]. destruct l as [| x l] using rev_ind; [by left | right; eauto].
Qed.

(** One fix-up after another is the later one, up to the mode it reads. *)
Lemma fix_after_fix (zipfile : ZipFile) (mode mode' : option Z) :
  (zipfile' ← _fix_last_zipinfo zipfile mode; _fix_last_zipinfo zipfile' mode') =
    match mode', mode with
    | Some _, _ => _fix_last_zipinfo zipfile mode'
    | None, None => _fix_last_zipinfo zipfile None
    | None, Some m => _fix_last_zipinfo zipfile (Some (normalize_mode m))
    end.
Proof.
  destruct (filelist_cases zipfile) as [-> | (entries & zipinfo & ->)].
  - by destruct mode, mode'.
  - destruct mode' as [m' |], mode as [m |];
      rewrite fix_last_snoc; simpl; rewrite !fix_last_snoc; simpl;
      rewrite ?patched_high, patched_low, ?normalize_mode_twice; reflexivity.
Qed.

Lemma patched_range (attr mode : Z) :
  0 <= attr -> 0 <= mode < 2 ^ 16 ->
  0 <= Z.lor (Z.land attr xFFFF) (Z.shiftl mode 16) < 2 ^ 32.
Proof.
  intros Hattr [Hlo Hhi].
  assert (0 <= Z.lor (Z.land attr xFFFF) (Z.shiftl mode 16)) as Hnonneg.
  { apply Z.lor_nonneg. split; [apply Z.land_nonneg; by left | by apply Z.shiftl_nonneg]. }
  split; [done |]. apply below_pow2; [lia | done |].
  intros n Hn. rewrite Z.lor_spec, Z.land_spec, Z.shiftl_spec by lia.
  rewrite (high_bit_clear xFFFF 16 n) by (unfold xFFFF; lia).
  rewrite (high_bit_clear mode 16 (n - 16)) by lia.
  by rewrite andb_false_r.
Qed.

Lemma stored_mode_range (attr : Z) : 0 <= attr < 2 ^ 32 -> 0 <= Z.shiftr attr 16 < 2 ^ 16.
Proof.
  intros [Hlo Hhi]. rewrite Z.shiftr_div_pow2 by lia. split.
  - apply Z.div_pos; lia.
  - apply Z.div_lt_upper_bound; lia.
Qed.

End ZipFurther.

(** X22: the fix-up in its normalizing form is idempotent: applied to an
    archive it has already fixed, it returns that archive unchanged, and
    on an archive without entries it raises [IndexError] both times. *)
Theorem fix_last_zipinfo_idempotent (zipfile : Zip.ZipFile) :
  (zipfile' ← Zip._fix_last_zipinfo zipfile None; Zip._fix_last_zipinfo zipfile' None)
    = Zip._fix_last_zipinfo zipfile None /\
  (forall zipfile', Zip._fix_last_zipinfo zipfile None = Ok zipfile' ->
     Zip._fix_last_zipinfo zipfile' None = Ok zipfile') /\
  Zip._fix_last_zipinfo {| Zip.filelist := [] |} None = Raise IndexError.
Proof.
  split; [apply (fix_after_fix zipfile None None) | split; [| done]].
  intros zipfile' Hfixed.
  pose proof (fix_after_fix zipfile None None) as Htwice.
  rewrite Hfixed in Htwice. exact Htwice.
Qed.

Lemma fix_last_zipinfo_idempotent_witness :
  Zip._fix_last_zipinfo archive0 None = Ok archive0.
Proof.
  destruct (fix_last_zipinfo_idempotent archive0) as (_ & Hfixed & _).
  by apply Hfixed.
Defined.

(** X23: the fixed mode wins over the normalized one: when the stock
    [write] hands its entry to the wrapped [writestr], or the other way
    round, the entry ends with mode [0o100644] exactly as after
    [WheelFile_writestr] alone, whatever mode had been captured. *)
Theorem WheelFile_write_over_writestr
    {args : Type} (_orig : Zip.ZipFile -> args -> result Zip.ZipFile)
    (self : Zip.ZipFile) (a : args) :
  Zip.WheelFile_write (Zip.WheelFile_writestr _orig) self a = Zip.WheelFile_writestr _orig self a /\
  Zip.WheelFile_writestr (Zip.WheelFile_write _orig) self a = Zip.WheelFile_writestr _orig self a.
Proof.
  unfold Zip.WheelFile_write, Zip.WheelFile_writestr.
  destruct (_orig self a) as [zipfile |]; [| done]. simpl.
  split.
  - etrans; [apply (fix_after_fix zipfile (Some o100644) None) | done].
  - apply (fix_after_fix zipfile None (Some o100644)).
Qed.

(** X24: the wrappers add no error handling: an exception of the stock
    writer is passed on and no fix-up happens, and a stock writer that
    returns with an empty archive makes the wrapper raise [IndexError]. *)
Theorem WheelFile_errors
    {args : Type} (_orig : Zip.ZipFile -> args -> result Zip.ZipFile)
    (self : Zip.ZipFile) (a : args) :
  (forall e, _orig self a = Raise e ->
     Zip.WheelFile_write _orig self a = Raise e /\
     Zip.WheelFile_writestr _orig self a = Raise e) /\
  (_orig self a = Ok {| Zip.filelist := [] |} ->
     Zip.WheelFile_write _orig self a = Raise IndexError /\
     Zip.WheelFile_writestr _orig self a = Raise IndexError).
Proof.
  unfold Zip.WheelFile_write, Zip.WheelFile_writestr.
  split; [intros e Horig | intros Horig]; by rewrite Horig.
Qed.

Lemma WheelFile_errors_witness :
  Zip.WheelFile_write (fun _ (_ : unit) => Raise (OSError 2)) archive0 () = Raise (OSError 2) /\
  Zip.WheelFile_writestr (fun self (_ : unit) => Ok self) {| Zip.filelist := [] |} ()
    = Raise IndexError.
Proof.
  split.
  - destruct (WheelFile_errors (fun _ (_ : unit) => Raise (OSError 2)) archive0 ()) as [Hraise _].
    by destruct (Hraise (OSError 2) eq_refl).
  - destruct (WheelFile_errors (fun self (_ : unit) => Ok self) {| Zip.filelist := [] |} ())
      as [_ Hempty].
    by destruct (Hempty eq_refl).
Defined.

(** X25: the fix-up keeps the external attributes a 32-bit word: if the
    last entry's attributes lie in [0, 2^32) and the mode given, if any, in
    [0, 2^16), so do the attributes of the patched entry. *)
Theorem fix_last_zipinfo_32_bits
    (entries : list Zip.ZipInfo) (zipinfo : Zip.ZipInfo) (mode : option Z) :
  0 <= Zip.external_attr zipinfo < 2 ^ 32 ->
  match mode with Some m => 0 <= m < 2 ^ 16 | None => True end ->
  exists patched,
    Zip._fix_last_zipinfo {| Zip.filelist := entries ++ [zipinfo] |} mode
      = Ok {| Zip.filelist := entries ++ [patched] |} /\
    0 <= Zip.external_attr patched < 2 ^ 32.
Proof.
  intros Hattr Hmode. rewrite fix_last_snoc. eexists. split; [reflexivity |].
  simpl. apply patched_range; [lia |].
  destruct mode as [m |]; [done |].
  apply normalize_mode_below; [lia |]. by apply stored_mode_range.
Qed.

Lemma fix_last_zipinfo_32_bits_witness :
  exists patched,
    Zip._fix_last_zipinfo archive0 (Some o100644) = Ok {| Zip.filelist := [] ++ [patched] |} /\
    0 <= Zip.external_attr patched < 2 ^ 32.
Proof.
  apply (fix_last_zipinfo_32_bits [] _ (Some o100644)); split; by vm_compute.
Defined.

(** ** More on the format table *)

(** X26: [install] keeps the keys of the format table and the tail of
    every entry, and leaves no entry that names a stock builder: an entry
    that did is replaced by one naming the closure of this run. *)
Theorem install_table_shape (wheel : Registry.wheel_support) (p : Registry.process) :
  dom (Registry.ARCHIVE_FORMATS (Registry.install wheel p)) = dom (Registry.ARCHIVE_FORMATS p) /\
  forall key e',
    Registry.ARCHIVE_FORMATS (Registry.install wheel p) !! key = Some e' ->
    Registry.is_stock e' = false /\
    exists e,
      Registry.ARCHIVE_FORMATS p !! key = Some e /\ e'.2 = e.2 /\
      (Registry.is_stock e = true ->
       e'.1 = Registry.make_tarball (Registry.runs p) \/
       e'.1 = Registry.make_zipfile (Registry.runs p)).
Proof.
  split; [apply dom_fmap_L |].
  intros key e'. rewrite install_lookup.
  destruct (Registry.ARCHIVE_FORMATS p !! key) as [e |]; simpl; [| done].
  intros [= <-]. split; [apply patch_format_stock |].
  exists e. split; [done |]. split; [done |].
  destruct e as [func rest]. unfold Registry.patch_format, Registry.is_stock. simpl.
  repeat case_decide; subst; simpl; auto. by destruct func.
Qed.

Lemma install_table_shape_witness :
  let installed := Registry.ARCHIVE_FORMATS (Registry.install Registry.no_wheel process0) in
  dom installed = dom Registry.shipped /\
  forall e', installed !! "zip" = Some e' -> Registry.is_stock e' = false.
Proof.
  intros installed.
  destruct (install_table_shape Registry.no_wheel process0) as [Hdom Hshape].
  split; [exact Hdom |].
  intros e' He'. by destruct (Hshape "zip" e' He').
Defined.
